(** * ConsolidateClasspath: loose classpath directories become jars

    A shallow embedding of
    [src/python/pants/backend/jvm/tasks/consolidate_classpath.py]
    together with the properties of the task that the specification
    states.  The task body is translated statement by statement into a
    small state-and-exception monad; the collaborators the task calls
    but does not define (the classpath products, the invalidation
    check, the jar tool, the product registry) are modelled next to it. *)

From Stdlib Require Import Ascii.
From stdpp Require Import base strings list gmap sets pretty.

(** ** Paths *)

(** [b.startswith('/')] *)
Definition startswith_sep (s : string) : bool :=
  match s with
  | String c _ => bool_decide (c = "/"%char)
  | EmptyString => false
  end.

(** [a.endswith('/')] *)
Fixpoint endswith_sep (s : string) : bool :=
  match s with
  | EmptyString => false
  | String c EmptyString => bool_decide (c = "/"%char)
  | String _ rest => endswith_sep rest
  end.

(** [os.path.join(a, b)] of [posixpath], for two components. *)
Definition os_path_join (a b : string) : string :=
  if startswith_sep b then b
  else if bool_decide (a = "") || endswith_sep a then a +:+ b
  else a +:+ "/" +:+ b.

(** ['output-{}.jar'.format(index)] *)
Definition output_jar_name (index : nat) : string :=
  "output-" +:+ pretty index +:+ ".jar".

(** [os.path.join(vt.results_dir, 'output-{}.jar'.format(index))] *)
Definition jarpath_of (results_dir : string) (index : nat) : string :=
  os_path_join results_dir (output_jar_name index).

(** ** Data model *)

(** A classpath entry carries the path it points at ([entry.path]). *)
Record ClasspathEntry := { path : string }.

Global Instance ClasspathEntry_eq_dec : EqDecision ClasspathEntry.
Proof. solve_decision. Defined.

(** A versioned target of the invalidation check: [vt.target],
    [vt.valid], [vt.results_dir].  Targets are named by their address. *)
Record VersionedTarget := {
  target : string;
  valid : bool;
  results_dir : string;
}.

(** What the task can raise. *)
Inductive error :=
| JarWriteError (jarpath source : string)
| AttributeError.

Inductive result (A : Type) :=
| Done (a : A)
| Raised (e : error).
Arguments Done {A} a.
Arguments Raised {A} e.

(** The state one run of the task body works on: the classpath products
    object handed to it, the directories of the file system, and the
    archives written so far, oldest first, as (jar path, packaged
    directory). *)
Record state := {
  classpath_products : gmap string (list (string * ClasspathEntry));
  directories : gset string;
  jars : list (string * string);
}.

(** ** A state and exception monad

    Python mutates its objects in place, so the state reached when an
    exception is raised is kept next to the exception. *)
Definition task (S A : Type) : Type := S → result A * S.

Definition ret {S A} (a : A) : task S A := λ s, (Done a, s).

Definition raise {S A} (e : error) : task S A := λ s, (Raised e, s).

Definition bind {S A B} (k : A → task S B) (m : task S A) : task S B :=
  λ s, match m s with
       | (Done a, s') => k a s'
       | (Raised e, s') => (Raised e, s')
       end.

Global Instance task_ret S : MRet (task S) := λ A, ret.
Global Instance task_bind S : MBind (task S) := λ A B, bind.

(** [for x in l: body(x)] *)
Fixpoint for_each {S A} (l : list A) (body : A → task S unit) : task S unit :=
  match l with
  | [] => ret ()
  | x :: rest => body x ;; for_each rest body
  end.

(** [enumerate(l)], counting from [start]. *)
Fixpoint enumerate_from {A} (start : nat) (l : list A) : list (nat * A) :=
  match l with
  | [] => []
  | x :: rest => (start, x) :: enumerate_from (S start) rest
  end.

Definition enumerate {A} (l : list A) : list (nat * A) := enumerate_from 0 l.

(** ** Collaborators *)

(** Modelled from the spec: [ClasspathUtil.is_dir] (classpath_util.py is
    not part of the sources).  The path kind of an entry is directory
    exactly when its path is a directory of the file system. *)
Definition is_dir (p : string) : task state bool :=
  λ st, (Done (bool_decide (p ∈ directories st)), st).

(** Removes the first element equal to [x], if there is one. *)
Fixpoint remove_first {A} `{EqDecision A} (x : A) (l : list A) : list A :=
  match l with
  | [] => []
  | y :: rest => if decide (x = y) then rest else y :: remove_first x rest
  end.

(** Path elements [(conf, path)] become [(conf, entry)] tuples. *)
Definition wrap_path_elements (elements : list (string * string))
  : list (string * ClasspathEntry) :=
  map (λ e, (e.1, {| path := e.2 |})) elements.

(** Modelled from the spec: the ClasspathManifest operations of
    [ClasspathProducts] (classpath_products.py is not part of the
    sources).  The manifest maps a target to an ordered sequence of
    (conf, entry) tuples; a target without entries has the empty
    sequence.  [get_internal_classpath_entries_for_targets] returns the
    sequences of the given targets, in order. *)
Definition get_internal_classpath_entries_for_targets (targets : list string)
  : task state (list (string * ClasspathEntry)) :=
  λ st, (Done (flat_map (λ t, classpath_products st !!! t) targets), st).

(** Modelled from the spec: [ClasspathProducts.remove_for_target], which
    removes each given tuple from the target's sequence by exact
    (conf, path) match. *)
Definition remove_for_target (t : string) (elements : list (string * string))
  : task state unit :=
  λ st,
    let old := classpath_products st !!! t in
    let new := foldl (λ l e, remove_first e l) old (wrap_path_elements elements) in
    (Done (), {| classpath_products := <[t := new]> (classpath_products st);
                 directories := directories st;
                 jars := jars st |}).

(** Modelled from the spec: [ClasspathProducts.add_for_target], which adds
    the given tuples to the target's sequence; the sequence keeps
    insertion order, so they go to its end. *)
Definition add_for_target (t : string) (elements : list (string * string))
  : task state unit :=
  λ st,
    let old := classpath_products st !!! t in
    (Done (), {| classpath_products :=
                   <[t := old ++ wrap_path_elements elements]> (classpath_products st);
                 directories := directories st;
                 jars := jars st |}).

Section Task.

(** Modelled from the spec: the ValidityOracle behind
    [self.invalidated] (the invalidation machinery is not part of the
    sources): per target, the verdict and the results directory. *)
Variable cache_check : string → bool * string.

(** Modelled from the spec: the ArchiveWriter behind [self.open_jar]
    (jar_task.py is not part of the sources): whether packaging the
    directory [source] into [jarpath] succeeds. *)
Variable jar_tool_ok : string → string → bool.

(** The versioned target the check hands out for [t]. *)
Definition versioned_target (t : string) : VersionedTarget :=
  {| target := t;
     valid := (cache_check t).1;
     results_dir := (cache_check t).2 |}.

(** Modelled from the spec: [invalidation.all_vts] (the invalidation
    machinery is not part of the sources): one versioned target per
    target, in input order.  The check is taken to answer for every
    target; what it keeps for itself and how it may fail is not modelled. *)
Definition all_vts (targets : list string) : list VersionedTarget :=
  map versioned_target targets.

(** Modelled from the spec: the ArchiveWriter call
    [with self.open_jar(jarpath, overwrite=True, compressed=False) as jar:
       jar.write(source)]
    (jar_task.py is not part of the sources).  A failure raises and leaves
    everything as it was; a success leaves an archive file at [jarpath],
    which is then no directory. *)
Definition open_jar_write (jarpath source : string) : task state unit :=
  λ st,
    if jar_tool_ok jarpath source
    then (Done (), {| classpath_products := classpath_products st;
                      directories := directories st ∖ {[ jarpath ]};
                      jars := jars st ++ [(jarpath, source)] |})
    else (Raised (JarWriteError jarpath source), st).

(** ** The task *)

(** The body of [for index, (conf, entry) in enumerate(entries)]. *)
Definition consolidate_entry (vt : VersionedTarget)
    (ie : nat * (string * ClasspathEntry)) : task state unit :=
  let '(index, (conf, entry)) := ie in
  d ← is_dir (path entry);
  if d : bool then
    let jarpath := jarpath_of (results_dir vt) index in
    (if negb (valid vt)
     then open_jar_write jarpath (path entry)
     else ret ()) ;;
    remove_for_target (target vt) [(conf, path entry)] ;;
    add_for_target (target vt) [(conf, jarpath)]
  else ret ().

(** The body of [for vt in invalidation.all_vts]. *)
Definition consolidate_vt (vt : VersionedTarget) : task state unit :=
  entries ← get_internal_classpath_entries_for_targets [target vt];
  for_each (enumerate entries) (consolidate_entry vt).

(** [_consolidate_classpath(self, targets, classpath_products)] *)
Definition _consolidate_classpath (targets : list string) : task state unit :=
  for_each (all_vts targets) consolidate_vt.

(** The inner loop of the candidate search: [true] when it appended the
    target and broke out, [false] when it ran to the end. *)
Fixpoint scan_entries (entries : list (string * ClasspathEntry))
  : task state bool :=
  match entries with
  | [] => ret false
  | (conf, entry) :: rest =>
      d ← is_dir (path entry);
      if d : bool then ret true else scan_entries rest
  end.

(** The outer loop of the candidate search, with the list built so far. *)
Fixpoint find_candidates_loop (targets : list string)
    (targets_with_directory_in_classpath : list string)
  : task state (list string) :=
  match targets with
  | [] => ret targets_with_directory_in_classpath
  | t :: rest =>
      entries ← get_internal_classpath_entries_for_targets [t];
      found ← scan_entries entries;
      find_candidates_loop rest
        (if found : bool
         then targets_with_directory_in_classpath ++ [t]
         else targets_with_directory_in_classpath)
  end.

(** [_find_consolidate_classpath_candidates(self, classpath_products, targets)] *)
Definition _find_consolidate_classpath_candidates (targets : list string)
  : task state (list string) :=
  find_candidates_loop targets [].

(** The two calls [execute] makes on the consolidated classpath:
    [targets_to_consolidate = self._find_consolidate_classpath_candidates(...)]
    and [self._consolidate_classpath(targets_to_consolidate, ...)]. *)
Definition consolidate (targets : list string) : task state unit :=
  targets_to_consolidate ← _find_consolidate_classpath_candidates targets;
  _consolidate_classpath targets_to_consolidate.

(** ** The task in its context *)

(** The context of a run: the product registry maps a product name to
    the object registered under it, [objects] holds the classpath
    products objects (two names may share one object), and
    [context_targets] is what [self.context.targets] returns for the
    closure arguments of the task. *)
Record context := {
  data_products : gmap string nat;
  objects : gmap nat (gmap string (list (string * ClasspathEntry)));
  context_targets : list string;
  fs_directories : gset string;
  fs_jars : list (string * string);
}.

(** Modelled from the spec: [ClasspathProducts.copy] (not part of the
    sources): a new object with the same sequences. *)
Definition classpath_copy (o : nat) : task context nat :=
  λ ctx,
    let o' := fresh (dom (objects ctx)) in
    (Done o', {| data_products := data_products ctx;
                 objects := <[o' := objects ctx !!! o]> (objects ctx);
                 context_targets := context_targets ctx;
                 fs_directories := fs_directories ctx;
                 fs_jars := fs_jars ctx |}).

(** Modelled from the spec: [Products.get_data(typename, init_func)] (the
    product registry is not part of the sources): the registered object,
    after registering [init_func()] when there is none. *)
Definition get_data (typename : string) (init_func : option (task context nat))
  : task context (option nat) :=
  λ ctx,
    match data_products ctx !! typename with
    | Some o => (Done (Some o), ctx)
    | None =>
        match init_func with
        | None => (Done None, ctx)
        | Some init =>
            match init ctx with
            | (Done o, ctx') =>
                (Done (Some o),
                 {| data_products := <[typename := o]> (data_products ctx');
                    objects := objects ctx';
                    context_targets := context_targets ctx';
                    fs_directories := fs_directories ctx';
                    fs_jars := fs_jars ctx' |})
            | (Raised e, ctx') => (Raised e, ctx')
            end
        end
    end.

(** Runs a task body on the object [o]: what the body does to its
    classpath products is done to that object, whoever else holds it. *)
Definition on_object {A} (o : nat) (body : task state A) : task context A :=
  λ ctx,
    let '(r, st) := body {| classpath_products := objects ctx !!! o;
                            directories := fs_directories ctx;
                            jars := fs_jars ctx |} in
    (r, {| data_products := data_products ctx;
           objects := <[o := classpath_products st]> (objects ctx);
           context_targets := context_targets ctx;
           fs_directories := directories st;
           fs_jars := jars st |}).

(** [self.context.targets(...)] for the closure arguments of the task. *)
Definition targets_of_context : task context (list string) :=
  λ ctx, (Done (context_targets ctx), ctx).

(** [execute(self)].  [runtime_classpath.copy] is looked up before the
    second [get_data] call, so a missing runtime classpath raises. *)
Definition execute : task context unit :=
  runtime_classpath ← get_data "runtime_classpath" None;
  match runtime_classpath with
  | None => raise AttributeError
  | Some rc =>
      consolidated_classpath ←
        get_data "consolidated_classpath" (Some (classpath_copy rc));
      match consolidated_classpath with
      | None => raise AttributeError
      | Some cc =>
          targets ← targets_of_context;
          on_object cc (consolidate targets)
      end
  end.

End Task.

(** ** Pure descriptions of what the task computes *)

(** The entry [(conf, entry)] points at a directory of [dirs]. *)
Definition is_directory_entry (dirs : gset string)
    (ce : string * ClasspathEntry) : Prop :=
  path ce.2 ∈ dirs.

Global Instance is_directory_entry_dec dirs ce :
  Decision (is_directory_entry dirs ce).
Proof. unfold is_directory_entry. apply _. Defined.

(** Target [t] has some directory entry in state [st]. *)
Definition has_directory_entry (st : state) (t : string) : Prop :=
  Exists (is_directory_entry (directories st)) (classpath_products st !!! t).

Global Instance has_directory_entry_dec st t : Decision (has_directory_entry st t).
Proof. unfold has_directory_entry. apply _. Defined.

(** The archive entries of the directory entries of a sequence, the entry
    at position [i] of the sequence counting as index [start + i]. *)
Fixpoint archive_entries (dirs : gset string) (results_dir : string)
    (start : nat) (entries : list (string * ClasspathEntry))
  : list (string * ClasspathEntry) :=
  match entries with
  | [] => []
  | (conf, entry) :: rest =>
      if decide (path entry ∈ dirs)
      then (conf, {| path := jarpath_of results_dir start |})
             :: archive_entries dirs results_dir (S start) rest
      else archive_entries dirs results_dir (S start) rest
  end.

(** The archives written for a sequence: (jar path, packaged directory). *)
Fixpoint archive_writes (dirs : gset string) (results_dir : string)
    (start : nat) (entries : list (string * ClasspathEntry))
  : list (string * string) :=
  match entries with
  | [] => []
  | (conf, entry) :: rest =>
      if decide (path entry ∈ dirs)
      then (jarpath_of results_dir start, path entry)
             :: archive_writes dirs results_dir (S start) rest
      else archive_writes dirs results_dir (S start) rest
  end.

(** A sequence after consolidation: the entries that are not directories,
    then the archives of those that are. *)
Definition consolidated_entries (dirs : gset string) (results_dir : string)
    (entries : list (string * ClasspathEntry)) : list (string * ClasspathEntry) :=
  filter (λ ce, ¬ is_directory_entry dirs ce) entries
  ++ archive_entries dirs results_dir 0 entries.

(** No archive path the run can assign to a target with a directory
    entry is itself a directory. *)
Definition archive_paths_free (cache_check : string → bool * string)
    (st : state) (targets : list string) : Prop :=
  Forall (λ t, has_directory_entry st t →
               Forall (λ i, jarpath_of (cache_check t).2 i ∉ directories st)
                      (seq 0 (length (classpath_products st !!! t))))
         targets.

Global Instance archive_paths_free_dec cache_check st targets :
  Decision (archive_paths_free cache_check st targets).
Proof. unfold archive_paths_free. apply _. Defined.

(** ** Further descriptions *)

(** The sequence of [t] after the tuple [(conf, entry)] has been removed
    and [(conf, jarpath)] added. *)
Definition replaced (t conf : string) (entry : ClasspathEntry) (jarpath : string)
    (cp : gmap string (list (string * ClasspathEntry)))
  : gmap string (list (string * ClasspathEntry)) :=
  <[t := remove_first (conf, entry) (cp !!! t) ++ [(conf, {| path := jarpath |})]]> cp.

(** How often [t] occurs in [l]. *)
Definition occurrences (t : string) (l : list string) : nat :=
  length (filter (λ x, x = t) l).

(** With respect to a starting state [st0]: no directory has appeared,
    the entries of [st0] that are no directories are all still there, in
    their order, and every archive written since packages a directory. *)
Definition passed_through (st0 st : state) : Prop :=
  directories st ⊆ directories st0
  ∧ (∀ t, filter (λ ce, ¬ is_directory_entry (directories st0) ce)
            (classpath_products st0 !!! t)
          `sublist_of` classpath_products st !!! t)
  ∧ (∀ js, js ∈ jars st → js ∈ jars st0 ∨ js.2 ∈ directories st0).

(** The state a task body sees when it runs on the object [o]. *)
Definition view (o : nat) (ctx : context) : state :=
  {| classpath_products := objects ctx !!! o;
     directories := fs_directories ctx;
     jars := fs_jars ctx |}.

(** The state the consolidation of [execute] starts from: the consolidated
    classpath when one is registered, else the runtime classpath, of which
    the copy is made. *)
Definition consolidation_input (ctx : context) : state :=
  match data_products ctx !! "consolidated_classpath" with
  | Some o => view o ctx
  | None => view (default 0 (data_products ctx !! "runtime_classpath")) ctx
  end.

(** ** Two claims as the specification words them *)

(** In-place replacement, as the specification words it: the archive of a
    directory entry stands at the position the directory entry had. *)
Definition replaced_in_place (cache_check : string → bool * string)
    (jar_tool_ok : string → string → bool) (targets : list string) (st : state)
  : Prop :=
  ∀ st' t i conf entry,
    consolidate cache_check jar_tool_ok targets st = (Done (), st') →
    t ∈ targets →
    (classpath_products st !!! t) !! i = Some (conf, entry) →
    path entry ∈ directories st →
    (classpath_products st' !!! t) !! i
    = Some (conf, {| path := jarpath_of (cache_check t).2 i |}).

(** The candidate list, as the specification words it: each selected
    target occurs once in it, and it keeps the order of the input. *)
Definition selected_once (targets : list string) (st : state) : Prop :=
  ∃ candidates,
    _find_consolidate_classpath_candidates targets st = (Done candidates, st)
    ∧ (∀ t, t ∈ candidates → occurrences t candidates = 1)
    ∧ candidates `sublist_of` targets.

(** ** Example runs *)

(** The scenario of the specification: T1 has a loose directory, T2 an
    archive; T1 is invalid and gets its results under [/out/T1]. *)
Definition ex_state : state :=
  {| classpath_products :=
       {[ "T1" := [("default", {| path := "/build/T1/classes" |})];
          "T2" := [("default", {| path := "/build/T2/out.jar" |})] ]};
     directories := {[ "/build/T1/classes" ]};
     jars := [] |}.

Definition ex_check (t : string) : bool * string := (false, "/out/" +:+ t).

Definition ex_jar_tool (jarpath source : string) : bool := true.

Definition valid_check (t : string) : bool * string := (true, "/out/" +:+ t).

(** A jar tool that cannot package the classes of [B]. *)
Definition failing_jar_tool (jarpath source : string) : bool :=
  negb (bool_decide (source = "/build/B/classes")).

Definition ex_after : state :=
  (consolidate ex_check ex_jar_tool ["T1"; "T2"] ex_state).2.

(** A target whose directory entry stands in front of an archive entry. *)
Definition mixed_state : state :=
  {| classpath_products :=
       {[ "T" := [("default", {| path := "/build/T/classes" |});
                  ("default", {| path := "/lib/a.jar" |})] ]};
     directories := {[ "/build/T/classes" ]};
     jars := [] |}.

Definition mixed_after : state :=
  (consolidate ex_check ex_jar_tool ["T"] mixed_state).2.

(** Three targets with a loose directory each. *)
Definition three_state : state :=
  {| classpath_products :=
       {[ "A" := [("default", {| path := "/build/A/classes" |})];
          "B" := [("default", {| path := "/build/B/classes" |})];
          "C" := [("default", {| path := "/build/C/classes" |})] ]};
     directories := {[ "/build/A/classes"; "/build/B/classes"; "/build/C/classes" ]};
     jars := [] |}.


(** A context in which only the runtime classpath is registered. *)
Definition ex_context : context :=
  {| data_products := {[ "runtime_classpath" := 0 ]};
     objects := {[ 0 := classpath_products ex_state ]};
     context_targets := ["T1"; "T2"];
     fs_directories := directories ex_state;
     fs_jars := [] |}.

Definition ex_context_after : context :=
  (execute ex_check ex_jar_tool ex_context).2.

(** ** The declarations of the task *)

(** [product_types(cls)] *)
Definition product_types : list string := ["consolidated_classpath"].

(** [implementation_version(cls)], over what the parent class returns. *)
Definition implementation_version (super_implementation_version : list (string * nat))
  : list (string * nat) :=
  super_implementation_version ++ [("ConsolidateClasspath", 1)].

(** ** What a run plans to write *)

(** The archives a run writes for target [t] when it meets it in state
    [st]: none for a valid target, one per directory entry otherwise. *)
Definition planned_writes (cache_check : string → bool * string) (st : state)
    (t : string) : list (string * string) :=
  if (cache_check t).1 then []
  else archive_writes (directories st) (cache_check t).2 0 (classpath_products st !!! t).

(** What [os.path.join] puts in front of a relative name: the directory,
    with a separator unless it is empty or ends with one. *)
Definition dir_prefix (a : string) : string :=
  if bool_decide (a = "") || endswith_sep a then a else a +:+ "/".

(** No character of the string is a dash. *)
Fixpoint dash_free (s : string) : Prop :=
  match s with
  | EmptyString => True
  | String c rest => c ≠ "-"%char ∧ dash_free rest
  end.

(** With respect to a starting state [st0]: no directory has appeared, and
    the targets without a directory entry in [st0] have their sequences. *)
Definition no_new_candidate (st0 st : state) : Prop :=
  directories st ⊆ directories st0
  ∧ ∀ t, ¬ has_directory_entry st0 t →
         classpath_products st !! t = classpath_products st0 !! t.

(** ** Further example runs *)

(** A context with a consolidated classpath but no runtime classpath. *)
Definition orphan_context : context :=
  {| data_products := {[ "consolidated_classpath" := 0 ]};
     objects := {[ 0 := classpath_products ex_state ]};
     context_targets := ["T1"; "T2"];
     fs_directories := directories ex_state;
     fs_jars := [] |}.

(** A target with two loose directories. *)
Definition two_dirs_state : state :=
  {| classpath_products :=
       {[ "T" := [("default", {| path := "/build/T/classes" |});
                  ("test", {| path := "/build/T/resources" |})] ]};
     directories := {[ "/build/T/classes"; "/build/T/resources" ]};
     jars := [] |}.

(** A jar tool that cannot package the resources of [T]. *)
Definition picky_jar_tool (jarpath source : string) : bool :=
  negb (bool_decide (source = "/build/T/resources")).

(** ** Three more claims as the specification words them *)

(** How often [x] occurs in [l]. *)
Definition count_of {A} `{EqDecision A} (x : A) (l : list A) : nat :=
  length (filter (λ y, y = x) l).

(** Completeness, as the specification words it: after a run that
    returned, a processed target that had a directory entry has none, and
    each directory entry is replaced by its archive entry. *)
Definition complete_after_run (cache_check : string → bool * string)
    (jar_tool_ok : string → string → bool) (targets : list string) (st : state)
  : Prop :=
  ∀ st' t,
    consolidate cache_check jar_tool_ok targets st = (Done (), st') →
    t ∈ targets →
    has_directory_entry st t →
    Forall (λ ce, path ce.2 ∉ directories st') (classpath_products st' !!! t)
    ∧ ∀ i conf entry,
        (classpath_products st !!! t) !! i = Some (conf, entry) →
        path entry ∈ directories st →
        ((conf, entry) ∉ classpath_products st' !!! t)
        ∧ ((conf, {| path := jarpath_of (cache_check t).2 i |})
             ∈ classpath_products st' !!! t).

(** Passthrough, as the specification words it: an entry that is no
    directory is neither removed nor added again, and its path is never
    handed to the jar tool, neither as the directory to package nor as the
    archive to write. *)
Definition passes_through_untouched (cache_check : string → bool * string)
    (jar_tool_ok : string → string → bool) (targets : list string) (st : state)
  : Prop :=
  ∀ r st' t conf entry,
    consolidate cache_check jar_tool_ok targets st = (r, st') →
    (conf, entry) ∈ classpath_products st !!! t →
    path entry ∉ directories st →
    count_of (conf, entry) (classpath_products st' !!! t)
    = count_of (conf, entry) (classpath_products st !!! t)
    ∧ ∀ jarpath source,
        (jarpath, source) ∈ jars st' →
        (jarpath, source) ∈ jars st ∨ (jarpath ≠ path entry ∧ source ≠ path entry).

(** The runtime classpath, as the specification words it: whatever is
    registered, [execute] leaves the runtime classpath as it was. *)
Definition runtime_classpath_kept (cache_check : string → bool * string)
    (jar_tool_ok : string → string → bool) (ctx : context) : Prop :=
  ∀ rc manifest r ctx',
    data_products ctx !! "runtime_classpath" = Some rc →
    objects ctx !! rc = Some manifest →
    execute cache_check jar_tool_ok ctx = (r, ctx') →
    data_products ctx' !! "runtime_classpath" = Some rc
    ∧ objects ctx' !! rc = Some manifest.

(** The archive path [p] is one a run over [targets] from [st] can assign:
    [results_dir/output-i.jar] of an input target with a directory entry,
    for an index [i] within its sequence. *)
Definition assigned (cache_check : string → bool * string) (st : state)
    (targets : list string) (p : string) : Prop :=
  ∃ t i,
    t ∈ targets
    ∧ has_directory_entry st t
    ∧ i < length (classpath_products st !!! t)
    ∧ p = jarpath_of (cache_check t).2 i.

(** With respect to a starting state [st0] and a tuple [ce]: no directory
    has appeared, every sequence holds [ce] as often as in [st0], and no
    archive written since has the path of [ce] as its jar or as the
    directory it packages. *)
Definition untouched (ce : string * ClasspathEntry) (st0 st : state) : Prop :=
  directories st ⊆ directories st0
  ∧ (∀ t, count_of ce (classpath_products st !!! t)
          = count_of ce (classpath_products st0 !!! t))
  ∧ (∀ js, js ∈ jars st → js ∈ jars st0 ∨ (js.1 ≠ path ce.2 ∧ js.2 ≠ path ce.2)).

(** A valid target whose archive path is a directory. *)
Definition stale_state : state :=
  {| classpath_products :=
       {[ "T" := [("default", {| path := "/build/T/classes" |})] ]};
     directories := {[ "/build/T/classes"; "/out/T/output-0.jar" ]};
     jars := [] |}.

(** A target that already names the archive its directory is packaged into. *)
Definition doubled_state : state :=
  {| classpath_products :=
       {[ "T" := [("default", {| path := "/build/T/classes" |});
                  ("default", {| path := "/out/T/output-0.jar" |})] ]};
     directories := {[ "/build/T/classes" ]};
     jars := [] |}.

(** A target whose directory entry stands behind an archive entry. *)
Definition late_state : state :=
  {| classpath_products :=
       {[ "T" := [("default", {| path := "/lib/a.jar" |});
                  ("default", {| path := "/build/T/classes" |})] ]};
     directories := {[ "/build/T/classes" ]};
     jars := [] |}.

(** A context in which both product names are registered for one object. *)
Definition aliased_context : context :=
  {| data_products := {[ "runtime_classpath" := 0; "consolidated_classpath" := 0 ]};
     objects := {[ 0 := classpath_products ex_state ]};
     context_targets := ["T1"; "T2"];
     fs_directories := directories ex_state;
     fs_jars := [] |}.

(** ** The monad, unfolded *)

Lemma bind_run {S A B} (m : task S A) (k : A → task S B) (s : S) :
  (m ≫= k) s = match m s with
               | (Done a, s') => k a s'
               | (Raised e, s') => (Raised e, s')
               end.
Proof. reflexivity. Qed.

Lemma for_each_app {S A} (l1 l2 : list A) (body : A → task S unit) (s : S) :
  for_each (l1 ++ l2) body s
  = match for_each l1 body s with
    | (Done _, s') => for_each l2 body s'
    | (Raised e, s') => (Raised e, s')
    end.
Proof.
  revert s. induction l1 as [|x l1 IH]; intros s; simpl.
  - reflexivity.
  - rewrite !bind_run. destruct (body x s) as [[[]|e] s']; [apply IH | reflexivity].
Qed.

(** ** The candidate search *)

Lemma scan_entries_run entries st :
  scan_entries entries st
  = (Done (bool_decide (Exists (is_directory_entry (directories st)) entries)), st).
Proof.
  induction entries as [|[conf entry] rest IH]; simpl.
  - reflexivity.
  - rewrite bind_run. unfold is_dir.
    destruct (decide (path entry ∈ directories st)) as [Hd|Hd].
    + rewrite (bool_decide_eq_true_2 _ Hd).
      rewrite bool_decide_eq_true_2; [reflexivity | by left].
    + rewrite (bool_decide_eq_false_2 _ Hd). rewrite IH.
      do 2 f_equal. apply bool_decide_ext. rewrite Exists_cons.
      unfold is_directory_entry at 2. simpl. tauto.
Qed.

Lemma get_entries_single t st :
  get_internal_classpath_entries_for_targets [t] st
  = (Done (classpath_products st !!! t), st).
Proof.
  unfold get_internal_classpath_entries_for_targets. simpl.
  by rewrite app_nil_r.
Qed.

Lemma find_candidates_loop_run targets acc st :
  find_candidates_loop targets acc st
  = (Done (acc ++ filter (has_directory_entry st) targets), st).
Proof.
  revert acc. induction targets as [|t rest IH]; intros acc; simpl.
  - by rewrite app_nil_r.
  - rewrite bind_run, get_entries_single, bind_run, scan_entries_run.
    rewrite IH. rewrite filter_cons.
    fold (has_directory_entry st t).
    destruct (decide (has_directory_entry st t)) as [Hd|Hd].
    + rewrite (bool_decide_eq_true_2 _ Hd). by rewrite <- app_assoc.
    + by rewrite (bool_decide_eq_false_2 _ Hd).
Qed.

Lemma find_candidates_run targets st :
  _find_consolidate_classpath_candidates targets st
  = (Done (filter (has_directory_entry st) targets), st).
Proof. apply find_candidates_loop_run. Qed.

(** ** Removing and adding tuples *)

Lemma remove_first_app_notin {A} `{EqDecision A} (x : A) (l1 l2 : list A) :
  x ∉ l1 → remove_first x (l1 ++ x :: l2) = l1 ++ l2.
Proof.
  induction l1 as [|y l1 IH]; intros Hx; simpl.
  - by rewrite decide_True.
  - apply not_elem_of_cons in Hx as [Hxy Hx].
    rewrite decide_False by done. by rewrite IH.
Qed.

Lemma remove_first_notin {A} `{EqDecision A} (x : A) (l : list A) :
  x ∉ l → remove_first x l = l.
Proof.
  induction l as [|y l IH]; intros Hx; simpl; [done|].
  apply not_elem_of_cons in Hx as [Hxy Hx].
  rewrite decide_False by done. by rewrite IH.
Qed.

Lemma sublist_remove_first {A} `{EqDecision A} (x : A) (k l : list A) :
  x ∉ k → k `sublist_of` l → k `sublist_of` remove_first x l.
Proof.
  intros Hx Hsub. induction Hsub as [|y k l Hsub IH|y k l Hsub IH]; simpl.
  - constructor.
  - apply not_elem_of_cons in Hx as [Hxy Hx].
    rewrite decide_False by done. constructor. by apply IH.
  - destruct (decide (x = y)); [done|]. constructor. by apply IH.
Qed.

Lemma remove_add_run t conf entry jarpath st :
  (remove_for_target t [(conf, path entry)] ;; add_for_target t [(conf, jarpath)]) st
  = (Done (), {| classpath_products := replaced t conf entry jarpath (classpath_products st);
                 directories := directories st;
                 jars := jars st |}).
Proof.
  rewrite bind_run. unfold remove_for_target, add_for_target, replaced. simpl.
  rewrite lookup_total_insert_eq, insert_insert_eq. by destruct entry.
Qed.

Section Steps.

Variable cache_check : string → bool * string.
Variable jar_tool_ok : string → string → bool.

(** An entry that is not a directory: nothing happens. *)
Lemma consolidate_entry_skip vt index conf entry st :
  path entry ∉ directories st →
  consolidate_entry jar_tool_ok vt (index, (conf, entry)) st = (Done (), st).
Proof.
  intros Hd. unfold consolidate_entry. rewrite bind_run. unfold is_dir.
  by rewrite (bool_decide_eq_false_2 _ Hd).
Qed.

(** A directory entry of a valid target: the tuple is replaced, nothing
    is written. *)
Lemma consolidate_entry_valid vt index conf entry st :
  path entry ∈ directories st →
  valid vt = true →
  consolidate_entry jar_tool_ok vt (index, (conf, entry)) st
  = (Done (), {| classpath_products :=
                   replaced (target vt) conf entry
                     (jarpath_of (results_dir vt) index) (classpath_products st);
                 directories := directories st;
                 jars := jars st |}).
Proof.
  intros Hd Hv. unfold consolidate_entry. rewrite bind_run. unfold is_dir.
  rewrite (bool_decide_eq_true_2 _ Hd), Hv. simpl.
  rewrite bind_run. unfold ret at 1. apply remove_add_run.
Qed.

(** A directory entry of an invalid target: the archive is written first,
    and a failing write leaves the tuple as it was. *)
Lemma consolidate_entry_invalid vt index conf entry st :
  path entry ∈ directories st →
  valid vt = false →
  consolidate_entry jar_tool_ok vt (index, (conf, entry)) st
  = let jarpath := jarpath_of (results_dir vt) index in
    if jar_tool_ok jarpath (path entry)
    then (Done (), {| classpath_products :=
                        replaced (target vt) conf entry jarpath (classpath_products st);
                      directories := directories st ∖ {[ jarpath ]};
                      jars := jars st ++ [(jarpath, path entry)] |})
    else (Raised (JarWriteError jarpath (path entry)), st).
Proof.
  intros Hd Hv. unfold consolidate_entry. rewrite bind_run. unfold is_dir.
  rewrite (bool_decide_eq_true_2 _ Hd), Hv. simpl.
  rewrite bind_run. unfold open_jar_write.
  destruct (jar_tool_ok _ _); [|reflexivity].
  by rewrite remove_add_run.
Qed.

(** The entry loop of one versioned target, started at index [k] on the
    sequence [head ++ rest ++ tail] with [rest] still to visit: when it
    returns, the directory entries of [rest] have left the sequence and
    their archives stand behind [tail]. *)
Lemma entries_loop_done vt rest : ∀ k head tail st st',
  classpath_products st !!! target vt = head ++ rest ++ tail →
  Forall (λ ce, ¬ is_directory_entry (directories st) ce) head →
  (valid vt = false →
   ∀ i, k ≤ i < k + length rest → jarpath_of (results_dir vt) i ∉ directories st) →
  for_each (enumerate_from k rest) (consolidate_entry jar_tool_ok vt) st = (Done (), st') →
  classpath_products st' !!! target vt
    = head ++ filter (λ ce, ¬ is_directory_entry (directories st) ce) rest ++ tail
        ++ archive_entries (directories st) (results_dir vt) k rest
  ∧ (∀ t', t' ≠ target vt →
           classpath_products st' !! t' = classpath_products st !! t')
  ∧ directories st' = directories st
  ∧ jars st' = jars st ++ (if valid vt then []
                           else archive_writes (directories st) (results_dir vt) k rest).
Proof.
  induction rest as [|[conf entry] rest IH]; intros k head tail st st' Hcp Hhead Hfree Hrun.
  - simpl in Hrun. injection Hrun as <-. simpl.
    rewrite app_nil_r. repeat split; [done..|].
    destruct (valid vt); by rewrite app_nil_r.
  - cbn [for_each enumerate_from] in Hrun. rewrite bind_run in Hrun.
    cbn [archive_entries archive_writes].
    rewrite filter_cons. unfold is_directory_entry at 1. cbn [snd].
    destruct (decide (path entry ∈ directories st)) as [Hd|Hd].
    + rewrite decide_False by (intros Hn; by apply Hn).
      assert (Hnotin : (conf, entry) ∉ head).
      { intros Hin. rewrite Forall_forall in Hhead. by apply (Hhead _ Hin). }
      assert (Hnew : remove_first (conf, entry) (classpath_products st !!! target vt)
                       ++ [(conf, {| path := jarpath_of (results_dir vt) k |})]
                     = head ++ rest ++ tail ++ [(conf, {| path := jarpath_of (results_dir vt) k |})]).
      { rewrite Hcp. simpl. rewrite remove_first_app_notin by done.
        by rewrite <- !app_assoc. }
      destruct (valid vt) eqn:Hv.
      * rewrite consolidate_entry_valid in Hrun by done.
        apply (IH (S k) head (tail ++ [(conf, {| path := jarpath_of (results_dir vt) k |})]))
          in Hrun as (Hcp' & Hframe & Hdirs & Hjars); simpl in *.
        -- repeat split; [|intros t' Ht'| done | done].
           ++ rewrite Hcp'. by rewrite <- !app_assoc.
           ++ rewrite (Hframe t' Ht'). unfold replaced. by rewrite lookup_insert_ne.
        -- unfold replaced. by rewrite lookup_total_insert_eq.
        -- done.
        -- done.
      * rewrite consolidate_entry_invalid in Hrun by done. simpl in Hrun.
        destruct (jar_tool_ok _ _); [|done].
        assert (Hsame : directories st ∖ {[ jarpath_of (results_dir vt) k ]} = directories st).
        { apply set_eq. intros p. rewrite elem_of_difference, elem_of_singleton.
          split; [by intros [? _]|]. intros Hp. split; [done|]. intros ->.
          apply (Hfree eq_refl k); [simpl; lia | done]. }
        rewrite Hsame in Hrun.
        apply (IH (S k) head (tail ++ [(conf, {| path := jarpath_of (results_dir vt) k |})]))
          in Hrun as (Hcp' & Hframe & Hdirs & Hjars); simpl in *.
        -- repeat split; [|intros t' Ht'| done |].
           ++ rewrite Hcp'. by rewrite <- !app_assoc.
           ++ rewrite (Hframe t' Ht'). unfold replaced. by rewrite lookup_insert_ne.
           ++ rewrite Hjars. by rewrite <- app_assoc.
        -- unfold replaced. by rewrite lookup_total_insert_eq.
        -- done.
        -- intros _ i Hi. apply Hfree; [done | simpl; lia].
    + rewrite decide_True by done.
      rewrite consolidate_entry_skip in Hrun by done.
      apply (IH (S k) (head ++ [(conf, entry)]) tail)
        in Hrun as (Hcp' & Hframe & Hdirs & Hjars).
      * repeat split; [|done..]. rewrite Hcp'. by rewrite <- !app_assoc.
      * rewrite Hcp. by rewrite <- !app_assoc.
      * apply Forall_app. split; [done|]. by apply Forall_singleton.
      * intros Hv i Hi. apply Hfree; [done | simpl; lia].
Qed.

Lemma entries_loop_skip vt rest : ∀ k st,
  Forall (λ ce, ¬ is_directory_entry (directories st) ce) rest →
  for_each (enumerate_from k rest) (consolidate_entry jar_tool_ok vt) st = (Done (), st).
Proof.
  induction rest as [|[conf entry] rest IH]; intros k st Hnd; [done|].
  apply Forall_cons in Hnd as [Hd Hnd].
  cbn [for_each enumerate_from]. rewrite bind_run.
  rewrite consolidate_entry_skip by exact Hd. by apply IH.
Qed.

Lemma entries_loop_valid vt rest : ∀ k st,
  valid vt = true →
  ∃ st', for_each (enumerate_from k rest) (consolidate_entry jar_tool_ok vt) st
         = (Done (), st').
Proof.
  induction rest as [|[conf entry] rest IH]; intros k st Hv; [by eexists|].
  cbn [for_each enumerate_from]. rewrite bind_run.
  destruct (decide (path entry ∈ directories st)) as [Hd|Hd].
  - rewrite consolidate_entry_valid by done. by apply IH.
  - rewrite consolidate_entry_skip by done. by apply IH.
Qed.

(** One versioned target, when its loop returns. *)
Lemma consolidate_vt_done vt st st' :
  (valid vt = false →
   ∀ i, i < length (classpath_products st !!! target vt) →
        jarpath_of (results_dir vt) i ∉ directories st) →
  consolidate_vt jar_tool_ok vt st = (Done (), st') →
  classpath_products st' !!! target vt
    = consolidated_entries (directories st) (results_dir vt)
        (classpath_products st !!! target vt)
  ∧ (∀ t', t' ≠ target vt →
           classpath_products st' !! t' = classpath_products st !! t')
  ∧ directories st' = directories st
  ∧ jars st' = jars st ++ (if valid vt then []
                           else archive_writes (directories st) (results_dir vt) 0
                                  (classpath_products st !!! target vt)).
Proof.
  intros Hfree Hrun. unfold consolidate_vt in Hrun.
  rewrite bind_run, get_entries_single in Hrun. unfold enumerate in Hrun.
  apply (entries_loop_done vt _ 0 [] []) in Hrun.
  - destruct Hrun as (Hcp & Hrest). split; [|done].
    rewrite Hcp. unfold consolidated_entries. simpl. done.
  - simpl. by rewrite app_nil_r.
  - constructor.
  - intros Hv i Hi. apply Hfree; [done | lia].
Qed.

(** A target without directory entries: its loop changes nothing. *)
Lemma consolidate_vt_skip vt st :
  ¬ has_directory_entry st (target vt) →
  consolidate_vt jar_tool_ok vt st = (Done (), st).
Proof.
  intros Hnd. unfold consolidate_vt.
  rewrite bind_run, get_entries_single. apply entries_loop_skip.
  by apply (not_Exists_Forall (is_directory_entry (directories st))).
Qed.

End Steps.

(** ** Consolidated sequences *)

Lemma archive_entries_length dirs rd entries : ∀ k,
  length (filter (λ ce, ¬ is_directory_entry dirs ce) entries)
  + length (archive_entries dirs rd k entries) = length entries.
Proof.
  induction entries as [|[conf entry] rest IH]; intros k; [done|].
  rewrite filter_cons. unfold is_directory_entry at 1. simpl.
  destruct (decide (path entry ∈ dirs)).
  - rewrite decide_False by (intros Hn; by apply Hn). simpl. rewrite <- (IH (S k)). lia.
  - rewrite decide_True by done. simpl. by rewrite (IH (S k)).
Qed.

Lemma consolidated_entries_length dirs rd entries :
  length (consolidated_entries dirs rd entries) = length entries.
Proof.
  unfold consolidated_entries. rewrite length_app. apply archive_entries_length.
Qed.

Lemma archive_entries_elem dirs rd entries : ∀ k ce,
  ce ∈ archive_entries dirs rd k entries →
  ∃ i, k ≤ i < k + length entries ∧ path ce.2 = jarpath_of rd i.
Proof.
  induction entries as [|[conf entry] rest IH]; intros k ce Hin; simpl in Hin.
  - by apply elem_of_nil in Hin.
  - destruct (decide (path entry ∈ dirs)).
    + apply elem_of_cons in Hin as [->|Hin].
      * exists k. simpl. split; [lia | done].
      * apply IH in Hin as (i & Hi & Hp). exists i. simpl. split; [lia | done].
    + apply IH in Hin as (i & Hi & Hp). exists i. simpl. split; [lia | done].
Qed.

Lemma archive_entries_lookup dirs rd entries : ∀ k i conf entry,
  entries !! i = Some (conf, entry) →
  path entry ∈ dirs →
  (conf, {| path := jarpath_of rd (k + i) |}) ∈ archive_entries dirs rd k entries.
Proof.
  induction entries as [|[conf0 entry0] rest IH]; intros k i conf entry Hi Hd; [done|].
  simpl. destruct i as [|i]; simpl in Hi.
  - injection Hi as -> ->. rewrite decide_True by done.
    rewrite Nat.add_0_r. by left.
  - replace (k + S i) with (S k + i) by lia.
    destruct (decide (path entry0 ∈ dirs)); [right|]; by apply (IH _ _ _ entry).
Qed.

Lemma archive_entries_none dirs rd entries : ∀ k,
  Forall (λ ce, ¬ is_directory_entry dirs ce) entries →
  archive_entries dirs rd k entries = [].
Proof.
  induction entries as [|[conf entry] rest IH]; intros k Hnd; [done|].
  apply Forall_cons in Hnd as [Hd Hnd]. simpl.
  rewrite decide_False by exact Hd. by apply IH.
Qed.

(** Without directory entries there is nothing to consolidate. *)
Lemma consolidated_entries_fixed dirs rd entries :
  Forall (λ ce, ¬ is_directory_entry dirs ce) entries →
  consolidated_entries dirs rd entries = entries.
Proof.
  intros Hnd. unfold consolidated_entries.
  rewrite archive_entries_none by done. rewrite app_nil_r.
  induction Hnd as [|ce rest Hd Hnd IH]; [done|].
  rewrite filter_cons, decide_True by done. by rewrite IH.
Qed.

(** A consolidated sequence has no directory entry, provided the archive
    paths are no directories. *)
Lemma consolidated_entries_no_directory dirs rd entries :
  (∀ i, i < length entries → jarpath_of rd i ∉ dirs) →
  Forall (λ ce, ¬ is_directory_entry dirs ce) (consolidated_entries dirs rd entries).
Proof.
  intros Hfree. unfold consolidated_entries. apply Forall_app. split.
  - apply Forall_forall. intros ce Hin. by apply list_elem_of_filter in Hin as [Hd _].
  - apply Forall_forall. intros ce Hin.
    apply archive_entries_elem in Hin as (i & Hi & Hp).
    unfold is_directory_entry. rewrite Hp. apply Hfree. lia.
Qed.

(** ** A whole run *)

Section Runs.

Variable cache_check : string → bool * string.
Variable jar_tool_ok : string → string → bool.

Lemma lookup_total_eq (cp cp' : gmap string (list (string * ClasspathEntry))) t :
  cp' !! t = cp !! t → cp' !!! t = cp !!! t.
Proof. intros Heq. by rewrite !lookup_total_alt, Heq. Qed.

Lemma consolidate_classpath_done targets : ∀ st st',
  (∀ t, t ∈ targets →
        ∀ i, i < length (classpath_products st !!! t) →
             jarpath_of (cache_check t).2 i ∉ directories st) →
  _consolidate_classpath cache_check jar_tool_ok targets st = (Done (), st') →
  directories st' = directories st
  ∧ (∀ t, t ∈ targets →
          classpath_products st' !!! t
          = consolidated_entries (directories st) (cache_check t).2
              (classpath_products st !!! t))
  ∧ (∀ t, t ∉ targets → classpath_products st' !! t = classpath_products st !! t).
Proof.
  unfold _consolidate_classpath.
  induction targets as [|t0 rest IH]; intros st st' Hfree Hrun.
  - simpl in Hrun. injection Hrun as <-. split; [done|].
    split; [|done]. intros t Ht. by apply elem_of_nil in Ht.
  - cbn [all_vts map for_each] in Hrun. rewrite bind_run in Hrun.
    set (vt := versioned_target cache_check t0) in *.
    destruct (consolidate_vt jar_tool_ok vt st) as [[[]|e] st1] eqn:Hvt; [|done].
    apply consolidate_vt_done in Hvt as (Hcp1 & Hframe1 & Hdirs1 & _);
      [|intros _ i Hi; apply Hfree; [by left | done]].
    simpl in Hcp1, Hframe1.
    assert (Hfree0 : ∀ i, i < length (classpath_products st !!! t0) →
                          jarpath_of (cache_check t0).2 i ∉ directories st).
    { intros i Hi. apply Hfree; [by left | done]. }
    apply IH in Hrun as (Hdirs & Hcp & Hframe).
    + split; [by rewrite Hdirs|]. split.
      * intros t Ht. destruct (decide (t ∈ rest)) as [Hin|Hnin].
        -- rewrite (Hcp t Hin), Hdirs1.
           destruct (decide (t = t0)) as [->|Hne].
           ++ rewrite Hcp1. apply consolidated_entries_fixed.
              by apply consolidated_entries_no_directory.
           ++ by rewrite (lookup_total_eq _ _ _ (Hframe1 t Hne)).
        -- apply elem_of_cons in Ht as [->|Ht]; [|done].
           by rewrite (lookup_total_eq _ _ _ (Hframe t0 Hnin)).
      * intros t Ht. apply not_elem_of_cons in Ht as [Hne Hnin].
        by rewrite (Hframe t Hnin), (Hframe1 t Hne).
    + intros t Ht i Hi. rewrite Hdirs1.
      destruct (decide (t = t0)) as [->|Hne].
      * apply Hfree0. by rewrite Hcp1, consolidated_entries_length in Hi.
      * apply Hfree; [by right|].
        by rewrite (lookup_total_eq _ _ _ (Hframe1 t Hne)) in Hi.
Qed.

Lemma archive_paths_free_candidates st targets t i :
  archive_paths_free cache_check st targets →
  t ∈ filter (has_directory_entry st) targets →
  i < length (classpath_products st !!! t) →
  jarpath_of (cache_check t).2 i ∉ directories st.
Proof.
  intros Hfree Ht Hi. apply list_elem_of_filter in Ht as [Hd Ht].
  unfold archive_paths_free in Hfree. rewrite Forall_forall in Hfree.
  specialize (Hfree t Ht Hd). rewrite Forall_forall in Hfree.
  apply Hfree. apply elem_of_seq. lia.
Qed.

(** The search and the rewriting together, when they return. *)
Lemma consolidate_done targets st st' :
  archive_paths_free cache_check st targets →
  consolidate cache_check jar_tool_ok targets st = (Done (), st') →
  directories st' = directories st
  ∧ (∀ t, t ∈ targets →
          classpath_products st' !!! t
          = consolidated_entries (directories st) (cache_check t).2
              (classpath_products st !!! t))
  ∧ (∀ t, ¬ (t ∈ targets ∧ has_directory_entry st t) →
          classpath_products st' !! t = classpath_products st !! t).
Proof.
  intros Hfree Hrun. unfold consolidate in Hrun.
  rewrite bind_run, find_candidates_run in Hrun.
  apply consolidate_classpath_done in Hrun as (Hdirs & Hcp & Hframe);
    [|intros t Ht i Hi; by eapply archive_paths_free_candidates].
  split; [done|]. split.
  - intros t Ht. destruct (decide (has_directory_entry st t)) as [Hd|Hd].
    + apply Hcp. by apply list_elem_of_filter.
    + rewrite consolidated_entries_fixed
        by (by apply (not_Exists_Forall (is_directory_entry (directories st)))).
      apply lookup_total_eq, Hframe. rewrite list_elem_of_filter. tauto.
  - intros t Ht. apply Hframe. rewrite list_elem_of_filter. tauto.
Qed.

(** After a run that returned, no target of the run has a directory entry. *)
Lemma no_candidates_left targets st st' :
  archive_paths_free cache_check st targets →
  consolidate cache_check jar_tool_ok targets st = (Done (), st') →
  filter (has_directory_entry st') targets = [].
Proof.
  intros Hfree Hrun.
  pose proof (archive_paths_free_candidates st targets) as Hjar.
  apply consolidate_done in Hrun as (Hdirs & Hcp & _); [|done].
  apply elem_of_nil_inv. intros t Hin.
  apply list_elem_of_filter in Hin as [Hd Ht].
  unfold has_directory_entry in Hd. rewrite Hdirs, (Hcp t Ht) in Hd.
  revert Hd. apply Forall_not_Exists.
  destruct (decide (has_directory_entry st t)) as [Hd0|Hd0].
  - apply consolidated_entries_no_directory.
    intros i Hi. apply Hjar; [done | by apply list_elem_of_filter | done].
  - rewrite consolidated_entries_fixed;
      by apply (not_Exists_Forall (is_directory_entry (directories st))).
Qed.

(** Without candidates a run returns the state it was given. *)
Lemma consolidate_no_candidates targets st :
  filter (has_directory_entry st) targets = [] →
  consolidate cache_check jar_tool_ok targets st = (Done (), st).
Proof.
  intros Hnil. unfold consolidate. by rewrite bind_run, find_candidates_run, Hnil.
Qed.

End Runs.

Lemma archive_entries_position dirs rd entries : ∀ k i conf entry,
  entries !! i = Some (conf, entry) →
  path entry ∈ dirs →
  archive_entries dirs rd k entries
    !! length (filter (is_directory_entry dirs) (take i entries))
  = Some (conf, {| path := jarpath_of rd (k + i) |}).
Proof.
  induction entries as [|[conf0 entry0] rest IH]; intros k i conf entry Hi Hd; [done|].
  destruct i as [|i]; simpl in Hi.
  - injection Hi as -> ->. simpl. rewrite decide_True by done.
    by rewrite Nat.add_0_r.
  - replace (k + S i) with (S k + i) by lia.
    cbn [take archive_entries]. rewrite filter_cons.
    unfold is_directory_entry at 1. cbn [snd].
    destruct (decide (path entry0 ∈ dirs)); simpl; exact (IH (S k) i conf entry Hi Hd).
Qed.

(** ** Archive paths *)

Lemma string_app_cons c (s1 s2 : string) :
  String c s1 +:+ s2 = String c (s1 +:+ s2).
Proof. reflexivity. Qed.

Lemma string_length_app (s1 s2 : string) :
  String.length (s1 +:+ s2) = String.length s1 + String.length s2.
Proof.
  induction s1 as [|c s1 IH]; [done|].
  rewrite string_app_cons. simpl. by rewrite IH.
Qed.

Lemma string_app_inv_tail (s1 s2 s : string) : s1 +:+ s = s2 +:+ s → s1 = s2.
Proof.
  revert s2. induction s1 as [|c1 s1 IH]; intros [|c2 s2] Heq.
  - done.
  - apply (f_equal String.length) in Heq.
    rewrite !string_length_app in Heq. simpl in Heq. lia.
  - apply (f_equal String.length) in Heq.
    rewrite !string_length_app in Heq. simpl in Heq. lia.
  - rewrite !string_app_cons in Heq. injection Heq as -> Heq. f_equal. by apply IH.
Qed.

Lemma output_jar_name_inj i j : output_jar_name i = output_jar_name j → i = j.
Proof.
  unfold output_jar_name. intros Heq.
  apply (inj (String.app "output-")) in Heq.
  apply string_app_inv_tail in Heq.
  by apply (inj pretty) in Heq.
Qed.

Lemma jarpath_of_inj rd i j : jarpath_of rd i = jarpath_of rd j → i = j.
Proof.
  unfold jarpath_of, os_path_join.
  assert (Hstart : ∀ n, startswith_sep (output_jar_name n) = false) by done.
  rewrite !Hstart. intros Heq. apply output_jar_name_inj.
  destruct (bool_decide (rd = "") || endswith_sep rd).
  - by apply (inj (String.app rd)) in Heq.
  - apply (inj (String.app rd)) in Heq. by apply (inj (String.app "/")) in Heq.
Qed.

Section Prefixes.

Variable cache_check : string → bool * string.
Variable jar_tool_ok : string → string → bool.

Lemma consolidate_vt_valid vt st :
  valid vt = true → ∃ st', consolidate_vt jar_tool_ok vt st = (Done (), st').
Proof.
  intros Hv. unfold consolidate_vt. rewrite bind_run, get_entries_single.
  by apply entries_loop_valid.
Qed.

Lemma consolidate_classpath_snoc pre t st :
  _consolidate_classpath cache_check jar_tool_ok (pre ++ [t]) st
  = match _consolidate_classpath cache_check jar_tool_ok pre st with
    | (Done _, st1) =>
        consolidate_vt jar_tool_ok (versioned_target cache_check t) st1
    | (Raised e, st1) => (Raised e, st1)
    end.
Proof.
  unfold _consolidate_classpath, all_vts. rewrite map_app, for_each_app.
  destruct (for_each _ _ st) as [[[]|e] st1]; [|done].
  cbn [map for_each]. rewrite bind_run.
  by destruct (consolidate_vt _ _ st1) as [[[]|e] st2].
Qed.

End Prefixes.

Lemma occurrences_filter (P : string → Prop) `{∀ x, Decision (P x)} t l :
  P t → occurrences t (filter P l) = occurrences t l.
Proof.
  intros Ht. unfold occurrences. induction l as [|x l IH]; [done|].
  rewrite !filter_cons. destruct (decide (P x)) as [Hx|Hx].
  - rewrite filter_cons. destruct (decide (x = t)); simpl; by rewrite IH.
  - rewrite decide_False by (by intros ->). done.
Qed.

Lemma occurrences_not_elem_of t l : t ∉ l → occurrences t l = 0.
Proof.
  intros Hnin. unfold occurrences. induction l as [|x l IH]; [done|].
  apply not_elem_of_cons in Hnin as [Hne Hnin].
  rewrite filter_cons, decide_False by done. by apply IH.
Qed.

Lemma occurrences_NoDup t l : NoDup l → t ∈ l → occurrences t l = 1.
Proof.
  intros Hnd. induction Hnd as [|x l Hx Hnd IH]; intros Hin.
  - by apply elem_of_nil in Hin.
  - unfold occurrences. rewrite filter_cons.
    destruct (decide (x = t)) as [->|Hne].
    + simpl. f_equal. by apply occurrences_not_elem_of.
    + apply elem_of_cons in Hin as [->|Hin]; [done|]. by apply IH.
Qed.

(** ** What a run leaves alone *)

Lemma for_each_invariant {S A} (I : S → Prop) (body : A → task S unit) (l : list A) :
  (∀ x s, I s → I (body x s).2) → ∀ s, I s → I (for_each l body s).2.
Proof.
  intros Hbody. induction l as [|x l IH]; intros s Hs; [done|].
  cbn [for_each]. rewrite bind_run.
  specialize (Hbody x s Hs). destruct (body x s) as [[[]|e] s1]; [by apply IH | done].
Qed.


Lemma passed_through_refl st : passed_through st st.
Proof.
  split; [done|]. split; [intros t; apply sublist_filter | intros js Hjs; by left].
Qed.

Section Frames.

Variable cache_check : string → bool * string.
Variable jar_tool_ok : string → string → bool.

Lemma passed_through_replaced st0 st t conf entry jarpath dirs' jars' :
  passed_through st0 st →
  path entry ∈ directories st →
  dirs' ⊆ directories st →
  (∀ js, js ∈ jars' → js ∈ jars st ∨ js.2 ∈ directories st) →
  passed_through st0
    {| classpath_products := replaced t conf entry jarpath (classpath_products st);
       directories := dirs';
       jars := jars' |}.
Proof.
  intros (Hdirs & Hkeep & Hjars) Hd Hsub Hnew. split; [|split]; simpl.
  - set_solver.
  - intros t'. unfold replaced. destruct (decide (t = t')) as [<-|Hne].
    + rewrite lookup_total_insert_eq. apply sublist_inserts_r.
      apply sublist_remove_first; [|done].
      intros Hin. apply list_elem_of_filter in Hin as [Hnd _].
      apply Hnd. unfold is_directory_entry. simpl. set_solver.
    + by rewrite lookup_total_insert_ne.
  - intros js Hjs. destruct (Hnew js Hjs) as [Hold|Hsrc]; [by apply Hjars|].
    right. set_solver.
Qed.

Lemma consolidate_entry_passed_through st0 vt ie st :
  passed_through st0 st →
  passed_through st0 (consolidate_entry jar_tool_ok vt ie st).2.
Proof.
  intros Hinv. destruct ie as [index [conf entry]].
  destruct (decide (path entry ∈ directories st)) as [Hd|Hd].
  - destruct (valid vt) eqn:Hv.
    + rewrite consolidate_entry_valid by done. simpl.
      apply passed_through_replaced; [done..|]. intros js Hjs. by left.
    + rewrite consolidate_entry_invalid by done. simpl.
      destruct (jar_tool_ok _ _); [|done]. simpl.
      apply passed_through_replaced; [done | done | apply subseteq_difference_l; done |].
      intros js Hjs. apply elem_of_app in Hjs as [Hjs|Hjs]; [by left|].
      apply list_elem_of_singleton in Hjs as ->. by right.
  - by rewrite consolidate_entry_skip.
Qed.

Lemma consolidate_vt_passed_through st0 vt st :
  passed_through st0 st →
  passed_through st0 (consolidate_vt jar_tool_ok vt st).2.
Proof.
  intros Hinv. unfold consolidate_vt. rewrite bind_run, get_entries_single.
  apply (for_each_invariant (passed_through st0)); [|done].
  intros ie s. apply consolidate_entry_passed_through.
Qed.

Lemma consolidate_passed_through targets st :
  passed_through st (consolidate cache_check jar_tool_ok targets st).2.
Proof.
  unfold consolidate. rewrite bind_run, find_candidates_run.
  unfold _consolidate_classpath.
  apply (for_each_invariant (passed_through st)); [|apply passed_through_refl].
  intros vt s. apply consolidate_vt_passed_through.
Qed.

(** A step for [vt] touches the sequence of no other target. *)
Lemma consolidate_entry_frame vt ie st t :
  t ≠ target vt →
  classpath_products (consolidate_entry jar_tool_ok vt ie st).2 !! t
  = classpath_products st !! t.
Proof.
  intros Hne. destruct ie as [index [conf entry]].
  destruct (decide (path entry ∈ directories st)) as [Hd|Hd].
  - destruct (valid vt) eqn:Hv.
    + rewrite consolidate_entry_valid by done. simpl.
      unfold replaced. by rewrite lookup_insert_ne.
    + rewrite consolidate_entry_invalid by done. simpl.
      destruct (jar_tool_ok _ _); [|done]. simpl.
      unfold replaced. by rewrite lookup_insert_ne.
  - by rewrite consolidate_entry_skip.
Qed.

Lemma consolidate_vt_frame vt st t :
  t ≠ target vt →
  classpath_products (consolidate_vt jar_tool_ok vt st).2 !! t
  = classpath_products st !! t.
Proof.
  intros Hne. unfold consolidate_vt. rewrite bind_run, get_entries_single.
  apply (for_each_invariant
           (λ s, classpath_products s !! t = classpath_products st !! t));
    [|done].
  intros ie s Hs. by rewrite consolidate_entry_frame.
Qed.

Lemma consolidate_classpath_frame targets st t :
  t ∉ targets →
  classpath_products (_consolidate_classpath cache_check jar_tool_ok targets st).2 !! t
  = classpath_products st !! t.
Proof.
  intros Hnin. unfold _consolidate_classpath.
  revert st. induction targets as [|t0 rest IH]; intros st; [done|].
  apply not_elem_of_cons in Hnin as [Hne Hnin].
  cbn [all_vts map for_each]. rewrite bind_run.
  pose proof (consolidate_vt_frame (versioned_target cache_check t0) st t Hne) as Hvt.
  destruct (consolidate_vt _ _ st) as [[[]|e] st1]; simpl in Hvt; [|done].
  rewrite <- Hvt. apply (IH Hnin st1).
Qed.


End Frames.

(** ** The task in its context, run twice *)

Section Contexts.

Variable cache_check : string → bool * string.
Variable jar_tool_ok : string → string → bool.

Lemma on_object_run {A} o (body : task state A) ctx :
  on_object o body ctx
  = ((body (view o ctx)).1,
     {| data_products := data_products ctx;
        objects := <[o := classpath_products (body (view o ctx)).2]> (objects ctx);
        context_targets := context_targets ctx;
        fs_directories := directories (body (view o ctx)).2;
        fs_jars := jars (body (view o ctx)).2 |}).
Proof. unfold on_object, view. by destruct (body _). Qed.

(** [execute] with both products registered. *)
Lemma execute_registered ctx rc o :
  data_products ctx !! "runtime_classpath" = Some rc →
  data_products ctx !! "consolidated_classpath" = Some o →
  execute cache_check jar_tool_ok ctx
  = on_object o (consolidate cache_check jar_tool_ok (context_targets ctx)) ctx.
Proof.
  intros Hrc Hcc. unfold execute. rewrite bind_run.
  unfold get_data at 1. rewrite Hrc. rewrite bind_run.
  unfold get_data. rewrite Hcc. by rewrite bind_run.
Qed.

(** [execute] with only the runtime classpath registered: the copy is
    registered, and the consolidation runs on it. *)
Lemma execute_fresh ctx rc :
  data_products ctx !! "runtime_classpath" = Some rc →
  data_products ctx !! "consolidated_classpath" = None →
  execute cache_check jar_tool_ok ctx
  = let o := fresh (dom (objects ctx)) in
    on_object o (consolidate cache_check jar_tool_ok (context_targets ctx))
      {| data_products := <["consolidated_classpath" := o]> (data_products ctx);
         objects := <[o := objects ctx !!! rc]> (objects ctx);
         context_targets := context_targets ctx;
         fs_directories := fs_directories ctx;
         fs_jars := fs_jars ctx |}.
Proof.
  intros Hrc Hcc. unfold execute. rewrite bind_run.
  unfold get_data at 1. rewrite Hrc. rewrite bind_run.
  unfold get_data. rewrite Hcc. unfold classpath_copy. by rewrite bind_run.
Qed.

End Contexts.

(** X11 ([execute] twice).  [execute] a second time, in the context a
    first [execute] returned with, finds the consolidated classpath
    registered, makes no second copy, and returns with that very context,
    whatever the validity check and the jar tool then answer. *)
Lemma execute_twice cache_check jar_tool_ok cache_check' jar_tool_ok' ctx ctx' :
  archive_paths_free cache_check (consolidation_input ctx) (context_targets ctx) →
  execute cache_check jar_tool_ok ctx = (Done (), ctx') →
  execute cache_check' jar_tool_ok' ctx' = (Done (), ctx').
Proof.
  intros Hfree Hrun. unfold consolidation_input in Hfree.
  destruct (data_products ctx !! "runtime_classpath") as [rc|] eqn:Hrc.
  2: { unfold execute in Hrun. rewrite bind_run in Hrun.
       unfold get_data in Hrun. rewrite Hrc in Hrun. discriminate Hrun. }
  assert (Hagain : ∀ o ctx0,
    data_products ctx0 !! "runtime_classpath" = Some rc →
    data_products ctx0 !! "consolidated_classpath" = Some o →
    archive_paths_free cache_check (view o ctx0) (context_targets ctx0) →
    on_object o (consolidate cache_check jar_tool_ok (context_targets ctx0)) ctx0
      = (Done (), ctx') →
    execute cache_check' jar_tool_ok' ctx' = (Done (), ctx')).
  { intros o ctx0 Hrc0 Hcc0 Hfree0 Hrun0. rewrite on_object_run in Hrun0.
    destruct (consolidate _ _ _ (view o ctx0)) as [r st'] eqn:Hcons.
    simpl in Hrun0. injection Hrun0 as -> <-.
    rewrite (execute_registered _ _ _ rc o) by done.
    rewrite on_object_run. simpl.
    assert (Hview : view o {| data_products := data_products ctx0;
                              objects := <[o := classpath_products st']> (objects ctx0);
                              context_targets := context_targets ctx0;
                              fs_directories := directories st';
                              fs_jars := jars st' |} = st').
    { unfold view. simpl. rewrite lookup_total_insert_eq. by destruct st'. }
    rewrite Hview.
    rewrite (consolidate_no_candidates cache_check' jar_tool_ok' _ st')
      by (by eapply no_candidates_left).
    simpl. by rewrite insert_insert_eq. }
  destruct (data_products ctx !! "consolidated_classpath") as [o|] eqn:Hcc.
  - rewrite (execute_registered _ _ _ rc o) in Hrun by done. by eapply Hagain.
  - rewrite (execute_fresh _ _ _ rc) in Hrun by done. simpl in Hrun, Hfree.
    eapply Hagain; [| |  |exact Hrun]; simpl.
    + by rewrite lookup_insert_ne.
    + by rewrite lookup_insert_eq.
    + unfold view in *. simpl. by rewrite lookup_total_insert_eq.
Qed.

(** ** Further properties of the task *)

Lemma remove_first_cons_perm {A} `{EqDecision A} (x : A) (l : list A) :
  x ∈ l → x :: remove_first x l ≡ₚ l.
Proof.
  induction l as [|y l IH]; intros Hin; [by apply elem_of_nil in Hin|].
  simpl. destruct (decide (x = y)) as [->|Hne]; [done|].
  apply elem_of_cons in Hin as [->|Hin]; [done|].
  rewrite Permutation_swap. by rewrite IH.
Qed.

Section Confs.

Variable cache_check : string → bool * string.
Variable jar_tool_ok : string → string → bool.

(** Replacing a tuple that is there keeps the confs. *)
Lemma replaced_confs t conf entry jarpath cp :
  (conf, entry) ∈ cp !!! t →
  (replaced t conf entry jarpath cp !!! t).*1 ≡ₚ (cp !!! t).*1.
Proof.
  intros Hin. unfold replaced. rewrite lookup_total_insert_eq.
  rewrite fmap_app. simpl. rewrite <- Permutation_cons_append.
  change (conf :: (remove_first (conf, entry) (cp !!! t)).*1)
    with (((conf, entry) :: remove_first (conf, entry) (cp !!! t)).*1).
  by rewrite remove_first_cons_perm.
Qed.

(** The entry loop, however it ends, keeps the confs of the sequence: the
    tuple it removes is always there. *)
Lemma entries_loop_confs vt rest : ∀ k head tail st,
  classpath_products st !!! target vt = head ++ rest ++ tail →
  Forall (λ ce, ¬ is_directory_entry (directories st) ce) head →
  (classpath_products
     (for_each (enumerate_from k rest) (consolidate_entry jar_tool_ok vt) st).2
     !!! target vt).*1
  ≡ₚ (classpath_products st !!! target vt).*1.
Proof.
  induction rest as [|[conf entry] rest IH]; intros k head tail st Hcp Hhead; [done|].
  cbn [for_each enumerate_from]. rewrite bind_run.
  destruct (decide (path entry ∈ directories st)) as [Hd|Hd].
  - assert (Hnotin : (conf, entry) ∉ head).
    { intros Hin. rewrite Forall_forall in Hhead. by apply (Hhead _ Hin). }
    assert (Hin : (conf, entry) ∈ classpath_products st !!! target vt).
    { rewrite Hcp. apply elem_of_app. right. by left. }
    assert (Hnew : ∀ jarpath,
      replaced (target vt) conf entry jarpath (classpath_products st) !!! target vt
      = head ++ rest ++ tail ++ [(conf, {| path := jarpath |})]).
    { intros jarpath. unfold replaced. rewrite lookup_total_insert_eq, Hcp.
      simpl. rewrite remove_first_app_notin by done. by rewrite <- !app_assoc. }
    destruct (valid vt) eqn:Hv.
    + rewrite consolidate_entry_valid by done.
      etrans; [apply (IH (S k) head (tail ++ [(conf, {| path := jarpath_of (results_dir vt) k |})]))|].
      * simpl. apply Hnew.
      * done.
      * simpl. by apply replaced_confs.
    + rewrite consolidate_entry_invalid by done. simpl.
      destruct (jar_tool_ok _ _); [|done].
      etrans; [apply (IH (S k) head (tail ++ [(conf, {| path := jarpath_of (results_dir vt) k |})]))|].
      * simpl. apply Hnew.
      * simpl. eapply Forall_impl; [exact Hhead|].
        intros ce Hce Hdir. apply Hce. unfold is_directory_entry in *.
        by apply elem_of_difference in Hdir as [? _].
      * simpl. by apply replaced_confs.
  - rewrite consolidate_entry_skip by done.
    apply (IH (S k) (head ++ [(conf, entry)]) tail).
    + rewrite Hcp. by rewrite <- !app_assoc.
    + apply Forall_app. split; [done|]. by apply Forall_singleton.
Qed.

Lemma consolidate_vt_confs vt st t :
  (classpath_products (consolidate_vt jar_tool_ok vt st).2 !!! t).*1
  ≡ₚ (classpath_products st !!! t).*1.
Proof.
  destruct (decide (t = target vt)) as [->|Hne].
  - unfold consolidate_vt. rewrite bind_run, get_entries_single.
    apply (entries_loop_confs vt _ 0 [] []); [|constructor].
    simpl. by rewrite app_nil_r.
  - by rewrite (lookup_total_eq _ _ _ (consolidate_vt_frame jar_tool_ok vt st t Hne)).
Qed.

Lemma consolidate_confs targets st t :
  (classpath_products (consolidate cache_check jar_tool_ok targets st).2 !!! t).*1
  ≡ₚ (classpath_products st !!! t).*1.
Proof.
  unfold consolidate. rewrite bind_run, find_candidates_run.
  unfold _consolidate_classpath.
  apply (for_each_invariant
           (λ s, (classpath_products s !!! t).*1 ≡ₚ (classpath_products st !!! t).*1));
    [|done].
  intros vt s Hs. by rewrite consolidate_vt_confs.
Qed.

End Confs.

Section Outcomes.

Variable cache_check : string → bool * string.
Variable jar_tool_ok : string → string → bool.

(** Over targets that are all valid the run returns, and neither the
    archives written nor the directories change. *)
Lemma consolidate_classpath_all_valid targets : ∀ st,
  (∀ t, t ∈ targets → (cache_check t).1 = true) →
  ∃ st', _consolidate_classpath cache_check jar_tool_ok targets st = (Done (), st')
         ∧ jars st' = jars st
         ∧ directories st' = directories st.
Proof.
  unfold _consolidate_classpath.
  induction targets as [|t rest IH]; intros st Hvalid; [by eexists|].
  cbn [all_vts map for_each]. rewrite bind_run.
  assert (Hv : valid (versioned_target cache_check t) = true)
    by (apply Hvalid; by left).
  destruct (consolidate_vt_valid jar_tool_ok _ st Hv) as [st1 Hrun].
  rewrite Hrun.
  apply consolidate_vt_done in Hrun as (_ & _ & Hdirs & Hjars);
    [|intros Hf; by rewrite Hv in Hf].
  rewrite Hv, app_nil_r in Hjars.
  destruct (IH st1) as (st' & Hrest & Hjars' & Hdirs');
    [intros t' Ht'; apply Hvalid; by right|].
  exists st'. split; [done|]. split; congruence.
Qed.

End Outcomes.

(** X1 (targets that are no candidates).  However a run ends, a target
    that is not in the input, or that has no directory entry when the run
    starts, is registered in the classpath products exactly as before: its
    sequence is the same, and a target without a sequence gets none. *)
Theorem untouched_targets cache_check jar_tool_ok targets st t :
  ¬ (t ∈ targets ∧ has_directory_entry st t) →
  classpath_products (consolidate cache_check jar_tool_ok targets st).2 !! t
  = classpath_products st !! t.
Proof.
  intros Hnot. unfold consolidate. rewrite bind_run, find_candidates_run.
  apply consolidate_classpath_frame. rewrite list_elem_of_filter. tauto.
Qed.

Lemma untouched_targets_witness :
  ¬ ("T2" ∈ ["T1"; "T2"] ∧ has_directory_entry ex_state "T2")
  ∧ classpath_products ex_after !! "T2" = classpath_products ex_state !! "T2".
Proof.
  assert (H1 : ¬ ("T2" ∈ ["T1"; "T2"] ∧ has_directory_entry ex_state "T2"))
    by (intros [_ Hd]; revert Hd; compute_done).
  split; [exact H1|].
  exact (untouched_targets ex_check ex_jar_tool ["T1"; "T2"] ex_state "T2" H1).
Defined.

(** X2 (confs and lengths).  However a run ends, the sequence of every
    target has the confs it had, each as often as before, and so the same
    number of entries: a replacement removes one tuple that is there and
    adds one under the same conf. *)
Theorem confs_preserved cache_check jar_tool_ok targets st t :
  (classpath_products (consolidate cache_check jar_tool_ok targets st).2 !!! t).*1
    ≡ₚ (classpath_products st !!! t).*1
  ∧ length (classpath_products (consolidate cache_check jar_tool_ok targets st).2 !!! t)
    = length (classpath_products st !!! t).
Proof.
  pose proof (consolidate_confs cache_check jar_tool_ok targets st t) as Hperm.
  split; [done|].
  apply Permutation_length in Hperm. by rewrite !length_fmap in Hperm.
Qed.

(** X4 (a run over valid targets).  When every input target with a
    directory entry is valid, the run returns, and it has written no
    archive and changed no directory. *)
Theorem all_valid_run cache_check jar_tool_ok targets st :
  (∀ t, t ∈ targets → has_directory_entry st t → (cache_check t).1 = true) →
  ∃ st',
    consolidate cache_check jar_tool_ok targets st = (Done (), st')
    ∧ jars st' = jars st
    ∧ directories st' = directories st.
Proof.
  intros Hvalid. unfold consolidate. rewrite bind_run, find_candidates_run.
  apply consolidate_classpath_all_valid.
  intros t Ht. apply list_elem_of_filter in Ht as [Hd Ht]. by apply Hvalid.
Qed.

Lemma all_valid_run_witness :
  (∀ t, t ∈ ["T"] → has_directory_entry mixed_state t → (valid_check t).1 = true)
  ∧ ∃ st',
      consolidate valid_check failing_jar_tool ["T"] mixed_state = (Done (), st')
      ∧ jars st' = [].
Proof.
  assert (H1 : ∀ t, t ∈ ["T"] → has_directory_entry mixed_state t →
                    (valid_check t).1 = true) by reflexivity.
  split; [exact H1|].
  destruct (all_valid_run valid_check failing_jar_tool ["T"] mixed_state H1)
    as (st' & Hrun & Hjars & _).
  exists st'. split; [exact Hrun | exact Hjars].
Defined.

(** ** The archives of a run *)

Lemma archive_writes_none dirs rd entries : ∀ k,
  Forall (λ ce, ¬ is_directory_entry dirs ce) entries →
  archive_writes dirs rd k entries = [].
Proof.
  induction entries as [|[conf entry] rest IH]; intros k Hnd; [done|].
  apply Forall_cons in Hnd as [Hd Hnd]. simpl.
  rewrite decide_False by exact Hd. by apply IH.
Qed.

Lemma archive_writes_lookup dirs rd entries : ∀ k i conf entry,
  entries !! i = Some (conf, entry) →
  path entry ∈ dirs →
  (jarpath_of rd (k + i), path entry) ∈ archive_writes dirs rd k entries.
Proof.
  induction entries as [|[conf0 entry0] rest IH]; intros k i conf entry Hi Hd; [done|].
  simpl. destruct i as [|i]; simpl in Hi.
  - injection Hi as -> ->. rewrite decide_True by done.
    rewrite Nat.add_0_r. by left.
  - replace (k + S i) with (S k + i) by lia.
    destruct (decide (path entry0 ∈ dirs)); [right|]; by apply (IH _ _ conf entry).
Qed.

Lemma archive_writes_elem dirs rd entries : ∀ k js,
  js ∈ archive_writes dirs rd k entries →
  ∃ i, k ≤ i < k + length entries ∧ js.1 = jarpath_of rd i ∧ js.2 ∈ dirs.
Proof.
  induction entries as [|[conf entry] rest IH]; intros k js Hin; simpl in Hin.
  - by apply elem_of_nil in Hin.
  - destruct (decide (path entry ∈ dirs)).
    + apply elem_of_cons in Hin as [->|Hin].
      * exists k. simpl. split; [lia | done].
      * apply IH in Hin as (i & Hi & Hp). exists i. simpl. split; [lia | done].
    + apply IH in Hin as (i & Hi & Hp). exists i. simpl. split; [lia | done].
Qed.

Lemma flat_map_agree {A B} (f g : A → list B) (l : list A) :
  (∀ x, x ∈ l → f x = g x) → flat_map f l = flat_map g l.
Proof.
  induction l as [|x l IH]; intros Heq; [done|]. simpl.
  rewrite (Heq x) by (by left). rewrite IH; [done|].
  intros y Hy. apply Heq. by right.
Qed.

Lemma flat_map_filter_nil {A B} (P : A → Prop) `{∀ x, Decision (P x)}
    (f : A → list B) (l : list A) :
  (∀ x, ¬ P x → f x = []) → flat_map f (filter P l) = flat_map f l.
Proof.
  intros Hnil. induction l as [|x l IH]; [done|].
  rewrite filter_cons. destruct (decide (P x)) as [Hx|Hx]; simpl.
  - by rewrite IH.
  - by rewrite (Hnil x Hx), IH.
Qed.

Section Writes.

Variable cache_check : string → bool * string.
Variable jar_tool_ok : string → string → bool.

Lemma planned_writes_agree st st1 t :
  directories st1 = directories st →
  classpath_products st1 !! t = classpath_products st !! t →
  planned_writes cache_check st1 t = planned_writes cache_check st t.
Proof.
  intros Hdirs Hcp. unfold planned_writes.
  by rewrite Hdirs, (lookup_total_eq _ _ _ Hcp).
Qed.

Lemma consolidate_classpath_writes targets : ∀ st st',
  (∀ t, t ∈ targets →
        ∀ i, i < length (classpath_products st !!! t) →
             jarpath_of (cache_check t).2 i ∉ directories st) →
  NoDup targets →
  _consolidate_classpath cache_check jar_tool_ok targets st = (Done (), st') →
  jars st' = jars st ++ flat_map (planned_writes cache_check st) targets.
Proof.
  unfold _consolidate_classpath.
  induction targets as [|t0 rest IH]; intros st st' Hfree Hnd Hrun.
  - simpl in Hrun. injection Hrun as <-. simpl. by rewrite app_nil_r.
  - apply NoDup_cons in Hnd as [Hnotin Hnd].
    cbn [all_vts map for_each] in Hrun. rewrite bind_run in Hrun.
    set (vt := versioned_target cache_check t0) in *.
    destruct (consolidate_vt jar_tool_ok vt st) as [[[]|e] st1] eqn:Hvt; [|done].
    apply consolidate_vt_done in Hvt as (_ & Hframe1 & Hdirs1 & Hjars1);
      [|intros _ i Hi; apply Hfree; [by left | done]].
    simpl in Hframe1, Hjars1.
    assert (Hother : ∀ t, t ∈ rest →
              classpath_products st1 !! t = classpath_products st !! t).
    { intros t Ht. apply Hframe1. by intros ->. }
    apply IH in Hrun; [|intros t Ht i Hi|done].
    + rewrite Hrun, Hjars1. simpl. rewrite <- app_assoc. f_equal. f_equal.
      apply flat_map_agree. intros t Ht.
      apply planned_writes_agree; [done | by apply Hother].
    + rewrite Hdirs1. apply Hfree; [by right|].
      by rewrite (lookup_total_eq _ _ _ (Hother t Ht)) in Hi.
Qed.

Lemma consolidate_writes targets st st' :
  archive_paths_free cache_check st targets →
  NoDup targets →
  consolidate cache_check jar_tool_ok targets st = (Done (), st') →
  jars st' = jars st ++ flat_map (planned_writes cache_check st) targets.
Proof.
  intros Hfree Hnd Hrun. unfold consolidate in Hrun.
  rewrite bind_run, find_candidates_run in Hrun.
  apply consolidate_classpath_writes in Hrun.
  - rewrite Hrun. f_equal. apply flat_map_filter_nil.
    intros t Hd. unfold planned_writes.
    destruct (cache_check t).1; [done|]. apply archive_writes_none.
    by apply (not_Exists_Forall (is_directory_entry (directories st))).
  - intros t Ht i Hi. by eapply archive_paths_free_candidates.
  - by apply NoDup_filter.
Qed.

(** The archive paths matter to [archive_paths_free], the verdicts do not. *)
Lemma archive_paths_free_results_dir cache_check' st targets :
  (∀ t, t ∈ targets → (cache_check' t).2 = (cache_check t).2) →
  archive_paths_free cache_check st targets →
  archive_paths_free cache_check' st targets.
Proof.
  intros Hsame Hfree. unfold archive_paths_free in *.
  rewrite Forall_forall in *. intros t Ht Hd.
  rewrite (Hsame t Ht). by apply Hfree.
Qed.

End Writes.

(** X5 (the verdicts do not show in the classpath).  Two runs from the same
    state that both return, under validity checks that hand out the same
    results directories, leave the same sequence for every target, whatever
    the verdicts were and whatever was written: the tuples are replaced
    outside the test on [vt.valid]. *)
Theorem verdicts_do_not_show cache_check cache_check' jar_tool_ok jar_tool_ok'
    targets st st1 st2 :
  archive_paths_free cache_check st targets →
  (∀ t, t ∈ targets → (cache_check' t).2 = (cache_check t).2) →
  consolidate cache_check jar_tool_ok targets st = (Done (), st1) →
  consolidate cache_check' jar_tool_ok' targets st = (Done (), st2) →
  ∀ t, classpath_products st1 !!! t = classpath_products st2 !!! t.
Proof.
  intros Hfree Hsame Hrun1 Hrun2 t.
  pose proof (archive_paths_free_results_dir _ _ _ _ Hsame Hfree) as Hfree'.
  apply consolidate_done in Hrun1 as (_ & Hcp1 & Hframe1); [|done].
  apply consolidate_done in Hrun2 as (_ & Hcp2 & Hframe2); [|done].
  destruct (decide (t ∈ targets)) as [Ht|Ht].
  - by rewrite (Hcp1 t Ht), (Hcp2 t Ht), (Hsame t Ht).
  - rewrite (lookup_total_eq _ _ _ (Hframe1 t (λ H, Ht (proj1 H)))).
    by rewrite (lookup_total_eq _ _ _ (Hframe2 t (λ H, Ht (proj1 H)))).
Qed.

Lemma verdicts_do_not_show_witness :
  archive_paths_free ex_check mixed_state ["T"]
  ∧ (∀ t, t ∈ ["T"] → (valid_check t).2 = (ex_check t).2)
  ∧ consolidate ex_check ex_jar_tool ["T"] mixed_state = (Done (), mixed_after)
  ∧ classpath_products mixed_after !!! "T"
    = classpath_products (consolidate valid_check failing_jar_tool ["T"] mixed_state).2
        !!! "T".
Proof.
  assert (H1 : archive_paths_free ex_check mixed_state ["T"]) by compute_done.
  assert (H2 : ∀ t, t ∈ ["T"] → (valid_check t).2 = (ex_check t).2) by reflexivity.
  assert (H3 : consolidate ex_check ex_jar_tool ["T"] mixed_state
               = (Done (), mixed_after)) by (vm_compute; reflexivity).
  assert (H4 : consolidate valid_check failing_jar_tool ["T"] mixed_state
               = (Done (), (consolidate valid_check failing_jar_tool ["T"] mixed_state).2))
    by (vm_compute; reflexivity).
  split; [exact H1|]. split; [exact H2|]. split; [exact H3|].
  exact (verdicts_do_not_show _ _ _ _ _ _ _ _ H1 H2 H3 H4 "T").
Defined.

Lemma planned_writes_sublist cache_check st (targets : list string) t :
  t ∈ targets →
  planned_writes cache_check st t
    `sublist_of` flat_map (planned_writes cache_check st) targets.
Proof.
  induction targets as [|t0 rest IH]; intros Hin; [by apply elem_of_nil in Hin|].
  simpl. apply elem_of_cons in Hin as [->|Hin].
  - by apply sublist_inserts_r.
  - apply sublist_inserts_l. by apply IH.
Qed.

(** X6 (what a run writes).  A run that returned, over input targets
    without repetition, has written, whatever the order in which it took
    the targets, exactly the archives of the invalid targets and each once:
    for an invalid target one archive per directory entry, the directory at
    index [i] packaged into [results_dir/output-i.jar], the archives of one
    target in the order of its entries; for a valid target none.  The
    archive paths the run assigns are taken not to be directories. *)
Theorem archives_written cache_check jar_tool_ok targets st st' :
  archive_paths_free cache_check st targets →
  NoDup targets →
  consolidate cache_check jar_tool_ok targets st = (Done (), st') →
  ∃ written,
    jars st' = jars st ++ written
    ∧ written ≡ₚ flat_map (planned_writes cache_check st) targets
    ∧ (∀ t, t ∈ targets → planned_writes cache_check st t `sublist_of` written)
    ∧ ∀ t i conf entry,
        t ∈ targets →
        (cache_check t).1 = false →
        (classpath_products st !!! t) !! i = Some (conf, entry) →
        path entry ∈ directories st →
        (jarpath_of (cache_check t).2 i, path entry) ∈ written.
Proof.
  intros Hfree Hnd Hrun.
  exists (flat_map (planned_writes cache_check st) targets).
  split; [by eapply consolidate_writes|]. split; [done|].
  split; [intros t Ht; by apply planned_writes_sublist|].
  intros t i conf entry Ht Hv Hi Hd.
  apply list_elem_of_In, in_flat_map.
  exists t. split; [by apply list_elem_of_In|]. apply list_elem_of_In.
  unfold planned_writes. rewrite Hv.
  by apply (archive_writes_lookup _ _ _ 0 i conf entry).
Qed.

Lemma archives_written_witness :
  archive_paths_free ex_check ex_state ["T1"; "T2"]
  ∧ NoDup ["T1"; "T2"]
  ∧ consolidate ex_check ex_jar_tool ["T1"; "T2"] ex_state = (Done (), ex_after)
  ∧ ∃ written,
      jars ex_after = jars ex_state ++ written
      ∧ written ≡ₚ [("/out/T1/output-0.jar", "/build/T1/classes")].
Proof.
  assert (H1 : archive_paths_free ex_check ex_state ["T1"; "T2"]) by compute_done.
  assert (H2 : NoDup ["T1"; "T2"]) by compute_done.
  assert (H3 : consolidate ex_check ex_jar_tool ["T1"; "T2"] ex_state
               = (Done (), ex_after)) by (vm_compute; reflexivity).
  split; [exact H1|]. split; [exact H2|]. split; [exact H3|].
  destruct (archives_written _ _ _ _ _ H1 H2 H3) as (written & Hjars & Hperm & _).
  exists written. split; [exact Hjars|].
  rewrite Hperm. vm_compute. reflexivity.
Defined.

(** ** Archive paths of different results directories *)

Lemma string_app_assoc (s1 s2 s3 : string) :
  (s1 +:+ s2) +:+ s3 = s1 +:+ (s2 +:+ s3).
Proof.
  induction s1 as [|c s1 IH]; [done|].
  rewrite !string_app_cons. by rewrite IH.
Qed.

Lemma dash_free_app (s1 s2 : string) :
  dash_free (s1 +:+ s2) ↔ dash_free s1 ∧ dash_free s2.
Proof.
  induction s1 as [|c s1 IH].
  - change ("" +:+ s2) with s2. simpl. tauto.
  - rewrite string_app_cons. simpl. rewrite IH. tauto.
Qed.

(** Where the last dash of a string stands is determined by the string. *)
Lemma split_at_last_dash (x1 x2 d1 d2 : string) :
  dash_free d1 → dash_free d2 →
  x1 +:+ String "-" d1 = x2 +:+ String "-" d2 →
  x1 = x2 ∧ d1 = d2.
Proof.
  intros Hd1 Hd2. revert x2.
  induction x1 as [|c1 x1 IH]; intros [|c2 x2] Heq.
  - change ("" +:+ String "-" d1) with (String "-" d1) in Heq.
    change ("" +:+ String "-" d2) with (String "-" d2) in Heq.
    by injection Heq as ->.
  - change ("" +:+ String "-" d1) with (String "-" d1) in Heq.
    rewrite string_app_cons in Heq. injection Heq as <- ->.
    apply dash_free_app in Hd1 as [_ [Hdash _]]. done.
  - change ("" +:+ String "-" d2) with (String "-" d2) in Heq.
    rewrite string_app_cons in Heq. injection Heq as -> <-.
    apply dash_free_app in Hd2 as [_ [Hdash _]]. done.
  - rewrite !string_app_cons in Heq. injection Heq as -> Heq.
    destruct (IH x2 Heq) as [-> ->]. done.
Qed.

Lemma pretty_N_go_dash_free (x : N) : ∀ s, dash_free s → dash_free (pretty_N_go x s).
Proof.
  induction (N.lt_wf_0 x) as [x _ IH]; intros s Hs.
  assert (x = 0 ∨ 0 < x)%N as [->|Hpos] by lia.
  - by rewrite pretty_N_go_0.
  - rewrite pretty_N_go_step by done. apply IH.
    + by apply N.div_lt.
    + split; [|done]. unfold pretty_N_char. by repeat case_match.
Qed.

Lemma pretty_nat_dash_free (n : nat) : dash_free (pretty n).
Proof.
  unfold pretty, pretty_nat, pretty, pretty_N.
  case_decide; [by repeat split | by apply pretty_N_go_dash_free].
Qed.

Lemma jarpath_of_dir_prefix rd index :
  jarpath_of rd index = dir_prefix rd +:+ output_jar_name index.
Proof.
  unfold jarpath_of, os_path_join, dir_prefix.
  assert (Hstart : startswith_sep (output_jar_name index) = false) by done.
  rewrite Hstart. destruct (bool_decide (rd = "") || endswith_sep rd); [done|].
  by rewrite string_app_assoc.
Qed.

Lemma endswith_sep_app_sep (s : string) : endswith_sep (s +:+ "/") = true.
Proof.
  induction s as [|c s IH]; [done|].
  rewrite string_app_cons. simpl. rewrite IH.
  by destruct (s +:+ "/") eqn:Heq.
Qed.

Lemma dir_prefix_idemp rd : dir_prefix (dir_prefix rd) = dir_prefix rd.
Proof.
  unfold dir_prefix.
  destruct (bool_decide (rd = "") || endswith_sep rd) eqn:Hsep.
  - by rewrite Hsep.
  - by rewrite endswith_sep_app_sep, orb_true_r.
Qed.

Lemma jarpath_of_inj_dir rd1 rd2 i j :
  jarpath_of rd1 i = jarpath_of rd2 j → dir_prefix rd1 = dir_prefix rd2 ∧ i = j.
Proof.
  rewrite !jarpath_of_dir_prefix. unfold output_jar_name. intros Heq.
  change "output-" with ("output" +:+ "-") in Heq.
  rewrite !(string_app_assoc "output" "-") in Heq.
  rewrite <- !(string_app_assoc _ "output") in Heq.
  change (String.app "-") with (String "-") in Heq.
  apply split_at_last_dash in Heq as [Hdir Hname].
  - apply string_app_inv_tail in Hdir. apply string_app_inv_tail in Hname.
    split; [done|]. by apply (inj pretty).
  - apply dash_free_app. split; [apply pretty_nat_dash_free | by repeat split].
  - apply dash_free_app. split; [apply pretty_nat_dash_free | by repeat split].
Qed.

(** X7 (archive paths do not collide).  Two archive paths are the same
    only for the same index and for results directories that [os.path.join]
    treats alike, that is, that are the same once a separator is put
    behind those that are not empty and do not end with one.  So [/out/T]
    and [/out/T/] share their archive paths, while results directories that
    differ otherwise share none. *)
Theorem archive_paths_collide_only_within rd1 rd2 i j :
  (jarpath_of rd1 i = jarpath_of rd2 j ↔ dir_prefix rd1 = dir_prefix rd2 ∧ i = j)
  ∧ jarpath_of (dir_prefix rd1) i = jarpath_of rd1 i.
Proof.
  split.
  - split; [apply jarpath_of_inj_dir|].
    intros [Hdir ->]. by rewrite !jarpath_of_dir_prefix, Hdir.
  - by rewrite !jarpath_of_dir_prefix, dir_prefix_idemp.
Qed.

Lemma archive_paths_collide_only_within_witness :
  jarpath_of "/out/T/" 3 = jarpath_of "/out/T" 3
  ∧ jarpath_of "/out/T" 3 = "/out/T/output-3.jar".
Proof.
  split.
  - exact (proj2 (archive_paths_collide_only_within "/out/T" "/out/T" 3 3)).
  - vm_compute. reflexivity.
Defined.

(** ** No archive is written twice *)

Lemma archive_writes_NoDup dirs rd entries : ∀ k,
  NoDup (archive_writes dirs rd k entries).*1.
Proof.
  induction entries as [|[conf entry] rest IH]; intros k; simpl; [constructor|].
  destruct (decide (path entry ∈ dirs)); [|apply IH].
  simpl. apply NoDup_cons. split; [|apply IH].
  intros Hin. apply list_elem_of_fmap in Hin as (js & Hjs & Hin).
  apply archive_writes_elem in Hin as (i & Hi & Hp & _).
  rewrite Hp in Hjs. apply jarpath_of_inj in Hjs. lia.
Qed.

Lemma planned_writes_paths cache_check st t p :
  p ∈ (planned_writes cache_check st t).*1 →
  ∃ i, p = jarpath_of (cache_check t).2 i.
Proof.
  unfold planned_writes. destruct (cache_check t).1.
  - intros Hin. by apply elem_of_nil in Hin.
  - intros Hin. apply list_elem_of_fmap in Hin as (js & -> & Hin).
    apply archive_writes_elem in Hin as (i & _ & Hp & _). by exists i.
Qed.

Lemma planned_writes_NoDup cache_check st (targets : list string) :
  NoDup targets →
  (∀ t1 t2, t1 ∈ targets → t2 ∈ targets →
            dir_prefix (cache_check t1).2 = dir_prefix (cache_check t2).2 → t1 = t2) →
  NoDup (flat_map (planned_writes cache_check st) targets).*1.
Proof.
  induction targets as [|t0 rest IH]; intros Hnd Hdirs; [constructor|].
  apply NoDup_cons in Hnd as [Hnotin Hnd]. simpl. rewrite fmap_app.
  apply NoDup_app. split; [|split].
  - unfold planned_writes. destruct (cache_check t0).1; [constructor|].
    apply archive_writes_NoDup.
  - intros p Hp Hrest. apply planned_writes_paths in Hp as [i ->].
    apply list_elem_of_fmap in Hrest as (js & Hjs & Hin).
    apply list_elem_of_In, in_flat_map in Hin as (t & Ht & Hin).
    apply list_elem_of_In in Ht, Hin.
    assert (Hpath : js.1 ∈ (planned_writes cache_check st t).*1)
      by (apply list_elem_of_fmap; by exists js).
    apply planned_writes_paths in Hpath as [j Hj].
    rewrite Hj in Hjs. apply jarpath_of_inj_dir in Hjs as [Hdir _].
    apply Hnotin. rewrite (Hdirs t0 t); [done | by left | by right | done].
  - apply IH; [done|]. intros t1 t2 Ht1 Ht2. apply Hdirs; by right.
Qed.

(** X8 (no archive is written twice).  A run that returned, over input
    targets without repetition whose results directories [os.path.join]
    does not treat alike, has written every archive path at most once: no
    archive of the run is overwritten by the run. *)
Theorem no_archive_written_twice cache_check jar_tool_ok targets st st' :
  archive_paths_free cache_check st targets →
  NoDup targets →
  (∀ t1 t2, t1 ∈ targets → t2 ∈ targets →
            dir_prefix (cache_check t1).2 = dir_prefix (cache_check t2).2 → t1 = t2) →
  consolidate cache_check jar_tool_ok targets st = (Done (), st') →
  ∃ written, jars st' = jars st ++ written ∧ NoDup written.*1.
Proof.
  intros Hfree Hnd Hdirs Hrun.
  exists (flat_map (planned_writes cache_check st) targets).
  split; [by eapply consolidate_writes | by apply planned_writes_NoDup].
Qed.

Lemma no_archive_written_twice_witness :
  archive_paths_free ex_check three_state ["A"; "B"]
  ∧ NoDup ["A"; "B"]
  ∧ (∀ t1 t2, t1 ∈ ["A"; "B"] → t2 ∈ ["A"; "B"] →
              dir_prefix (ex_check t1).2 = dir_prefix (ex_check t2).2 → t1 = t2)
  ∧ ∃ written,
      jars (consolidate ex_check ex_jar_tool ["A"; "B"] three_state).2 = [] ++ written
      ∧ NoDup written.*1.
Proof.
  assert (H1 : archive_paths_free ex_check three_state ["A"; "B"]) by compute_done.
  assert (H2 : NoDup ["A"; "B"]) by compute_done.
  assert (H3 : ∀ t1 t2, t1 ∈ ["A"; "B"] → t2 ∈ ["A"; "B"] →
                 dir_prefix (ex_check t1).2 = dir_prefix (ex_check t2).2 → t1 = t2).
  { intros t1 t2 Ht1 Ht2 Heq.
    apply list_elem_of_In in Ht1, Ht2. simpl in Ht1, Ht2.
    destruct Ht1 as [<-|[<-|[]]], Ht2 as [<-|[<-|[]]];
      try reflexivity; vm_compute in Heq; discriminate Heq. }
  assert (H4 : consolidate ex_check ex_jar_tool ["A"; "B"] three_state
               = (Done (), (consolidate ex_check ex_jar_tool ["A"; "B"] three_state).2))
    by (vm_compute; reflexivity).
  split; [exact H1|]. split; [exact H2|]. split; [exact H3|].
  exact (no_archive_written_twice _ _ _ _ _ H1 H2 H3 H4).
Defined.

(** ** The task in its context, further *)

Section Registry.

Variable cache_check : string → bool * string.
Variable jar_tool_ok : string → string → bool.

Lemma execute_missing ctx :
  data_products ctx !! "runtime_classpath" = None →
  execute cache_check jar_tool_ok ctx = (Raised AttributeError, ctx).
Proof.
  intros Hrc. unfold execute. rewrite bind_run. unfold get_data. by rewrite Hrc.
Qed.

(** [execute] with the runtime classpath registered: the consolidation
    runs on the consolidated classpath, registered before or just now. *)
Lemma execute_run ctx rc :
  data_products ctx !! "runtime_classpath" = Some rc →
  ∃ o ctx0,
    execute cache_check jar_tool_ok ctx
    = on_object o (consolidate cache_check jar_tool_ok (context_targets ctx)) ctx0
    ∧ data_products ctx0 = <["consolidated_classpath" := o]> (data_products ctx)
    ∧ view o ctx0 = consolidation_input ctx
    ∧ (∀ o', o' ≠ o → objects ctx0 !! o' = objects ctx !! o')
    ∧ context_targets ctx0 = context_targets ctx.
Proof.
  intros Hrc.
  destruct (data_products ctx !! "consolidated_classpath") as [o|] eqn:Hcc.
  - exists o, ctx. rewrite (execute_registered _ _ _ rc o) by done.
    split; [done|]. split; [by rewrite insert_id|].
    split; [|done]. unfold consolidation_input. by rewrite Hcc.
  - rewrite (execute_fresh _ _ _ rc) by done. simpl.
    eexists _, _. split; [reflexivity|]. simpl.
    split; [done|]. split; [|split; [|done]].
    + unfold consolidation_input, view. rewrite Hcc, Hrc. simpl.
      by rewrite lookup_total_insert_eq.
    + intros o' Hne. by rewrite lookup_insert_ne.
Qed.

End Registry.

(** X9 (what [execute] registers).  With the runtime classpath registered,
    [execute], however it ends, leaves the product registry as it was but
    for the consolidated classpath, the one product [product_types]
    announces; every object other than the consolidated classpath is as it
    was, and so are the targets of the context. *)
Theorem execute_registers_its_product cache_check jar_tool_ok ctx rc r ctx' :
  data_products ctx !! "runtime_classpath" = Some rc →
  execute cache_check jar_tool_ok ctx = (r, ctx') →
  ∃ o,
    data_products ctx' = <["consolidated_classpath" := o]> (data_products ctx)
    ∧ (∀ name, name ∉ product_types →
               data_products ctx' !! name = data_products ctx !! name)
    ∧ (∀ o', o' ≠ o → objects ctx' !! o' = objects ctx !! o')
    ∧ context_targets ctx' = context_targets ctx.
Proof.
  intros Hrc Hrun.
  destruct (execute_run cache_check jar_tool_ok ctx rc Hrc)
    as (o & ctx0 & Hexec & Hdp & _ & Hobj & Htargets).
  rewrite Hexec, on_object_run in Hrun. injection Hrun as _ <-. simpl.
  exists o. split; [done|]. split; [|split; [|done]].
  - intros name Hname. rewrite Hdp. apply lookup_insert_ne.
    intros <-. apply Hname. unfold product_types. by left.
  - intros o' Hne. rewrite lookup_insert_ne by done. by apply Hobj.
Qed.

Lemma execute_registers_its_product_witness :
  data_products ex_context !! "runtime_classpath" = Some 0
  ∧ execute ex_check ex_jar_tool ex_context = (Done (), ex_context_after)
  ∧ ∃ o, data_products ex_context_after
         = <["consolidated_classpath" := o]> (data_products ex_context).
Proof.
  assert (H1 : data_products ex_context !! "runtime_classpath" = Some 0)
    by (vm_compute; reflexivity).
  assert (H2 : execute ex_check ex_jar_tool ex_context = (Done (), ex_context_after))
    by (vm_compute; reflexivity).
  split; [exact H1|]. split; [exact H2|].
  destruct (execute_registers_its_product _ _ _ _ _ _ H1 H2) as (o & Hdp & _).
  exists o. exact Hdp.
Defined.

(** X10 (a missing runtime classpath).  Without a registered runtime
    classpath [execute] raises an attribute error, from
    [runtime_classpath.copy] on [None], and leaves the context as it was:
    nothing is registered, copied or consolidated, also when a consolidated
    classpath is registered and whatever the targets of the context are. *)
Theorem execute_errors cache_check jar_tool_ok ctx :
  data_products ctx !! "runtime_classpath" = None →
  execute cache_check jar_tool_ok ctx = (Raised AttributeError, ctx).
Proof.
  intros Hrc. unfold execute. rewrite bind_run.
  unfold get_data. rewrite Hrc. reflexivity.
Qed.

Lemma execute_errors_witness :
  data_products orphan_context !! "runtime_classpath" = None
  ∧ execute ex_check ex_jar_tool orphan_context = (Raised AttributeError, orphan_context).
Proof.
  assert (H1 : data_products orphan_context !! "runtime_classpath" = None)
    by (vm_compute; reflexivity).
  split; [exact H1|].
  exact (execute_errors ex_check ex_jar_tool orphan_context H1).
Defined.

Lemma execute_twice_witness :
  archive_paths_free ex_check (consolidation_input ex_context) (context_targets ex_context)
  ∧ execute ex_check ex_jar_tool ex_context = (Done (), ex_context_after)
  ∧ execute valid_check failing_jar_tool ex_context_after = (Done (), ex_context_after).
Proof.
  assert (H1 : archive_paths_free ex_check (consolidation_input ex_context)
                 (context_targets ex_context)) by compute_done.
  assert (H2 : execute ex_check ex_jar_tool ex_context = (Done (), ex_context_after))
    by (vm_compute; reflexivity).
  split; [exact H1|]. split; [exact H2|].
  exact (execute_twice _ _ valid_check failing_jar_tool _ _ H1 H2).
Defined.

(** X12 (the product [execute] leaves).  When [execute] returns, the
    consolidated classpath is registered, and in it no target of the
    context has an entry that points at a directory; the archive paths the
    run assigns are taken not to be directories themselves. *)
Theorem execute_leaves_no_directory cache_check jar_tool_ok ctx ctx' :
  archive_paths_free cache_check (consolidation_input ctx) (context_targets ctx) →
  execute cache_check jar_tool_ok ctx = (Done (), ctx') →
  ∃ o,
    data_products ctx' !! "consolidated_classpath" = Some o
    ∧ ∀ t, t ∈ context_targets ctx →
           Forall (λ ce, path ce.2 ∉ fs_directories ctx') ((objects ctx' !!! o) !!! t).
Proof.
  intros Hfree Hrun.
  destruct (data_products ctx !! "runtime_classpath") as [rc|] eqn:Hrc;
    [|by rewrite execute_missing in Hrun].
  destruct (execute_run cache_check jar_tool_ok ctx rc Hrc)
    as (o & ctx0 & Hexec & Hdp & Hview & _).
  rewrite Hexec, on_object_run, Hview in Hrun.
  destruct (consolidate _ _ _ (consolidation_input ctx)) as [r st'] eqn:Hcons.
  simpl in Hrun. injection Hrun as -> <-. simpl.
  exists o. split; [by rewrite Hdp, lookup_insert_eq|].
  intros t Ht. rewrite lookup_total_insert_eq.
  pose proof (no_candidates_left _ _ _ _ _ Hfree Hcons) as Hnil.
  apply (not_Exists_Forall (is_directory_entry (directories st'))).
  intros Hd. apply (filter_nil_not_elem_of _ _ t Hnil); done.
Qed.

Lemma execute_leaves_no_directory_witness :
  archive_paths_free ex_check (consolidation_input ex_context) (context_targets ex_context)
  ∧ execute ex_check ex_jar_tool ex_context = (Done (), ex_context_after)
  ∧ ∃ o, data_products ex_context_after !! "consolidated_classpath" = Some o.
Proof.
  assert (H1 : archive_paths_free ex_check (consolidation_input ex_context)
                 (context_targets ex_context)) by compute_done.
  assert (H2 : execute ex_check ex_jar_tool ex_context = (Done (), ex_context_after))
    by (vm_compute; reflexivity).
  split; [exact H1|]. split; [exact H2|].
  destruct (execute_leaves_no_directory _ _ _ _ H1 H2) as (o & Ho & _).
  exists o. exact Ho.
Defined.

(** X13 (the version of the implementation).  The version list of the task
    is the version list of the parent class with the entry of the task at
    its end: it is never the parent's list itself, and two parent versions
    give the same task version only when they are the same, so that a new
    version of the parent is a new version of the task. *)
Theorem implementation_version_tracks_parent super_version super_version' :
  (implementation_version super_version = implementation_version super_version'
   ↔ super_version = super_version')
  ∧ implementation_version super_version ≠ super_version
  ∧ super_version `prefix_of` implementation_version super_version
  ∧ last (implementation_version super_version) = Some ("ConsolidateClasspath", 1).
Proof.
  unfold implementation_version. split; [|split; [|split]].
  - split; [|by intros ->]. intros Heq. by apply app_inv_tail in Heq.
  - intros Heq. apply (f_equal length) in Heq.
    rewrite length_app in Heq. simpl in Heq. lia.
  - by apply prefix_app_r.
  - by rewrite last_snoc.
Qed.

(** ** The candidates of a later run *)

Section Search.

Variable cache_check : string → bool * string.
Variable jar_tool_ok : string → string → bool.

Lemma no_new_candidate_skip st0 st t :
  no_new_candidate st0 st →
  ¬ has_directory_entry st0 t →
  ¬ has_directory_entry st t.
Proof.
  intros [Hdirs Hsame] Hnd Hd. apply Hnd. unfold has_directory_entry in *.
  rewrite (lookup_total_eq _ _ _ (Hsame t Hnd)) in Hd.
  eapply Exists_impl; [exact Hd|]. intros ce Hce. by apply Hdirs.
Qed.

Lemma no_new_candidate_step st0 st t :
  no_new_candidate st0 st →
  has_directory_entry st0 t →
  no_new_candidate st0
    (consolidate_vt jar_tool_ok (versioned_target cache_check t) st).2.
Proof.
  intros [Hdirs Hsame] Hd. split.
  - assert (Hpass : passed_through st
              (consolidate_vt jar_tool_ok (versioned_target cache_check t) st).2)
      by (apply (consolidate_vt_passed_through cache_check), passed_through_refl).
    destruct Hpass as [Hsub _]. by etrans.
  - intros t' Hnd. rewrite consolidate_vt_frame; [by apply Hsame|].
    simpl. by intros ->.
Qed.

End Search.

(** ** A target at which the run fails *)

Lemma enumerate_from_app {A} (l1 l2 : list A) : ∀ k,
  enumerate_from k (l1 ++ l2)
  = enumerate_from k l1 ++ enumerate_from (k + length l1) l2.
Proof.
  induction l1 as [|x l1 IH]; intros k; simpl.
  - by rewrite Nat.add_0_r.
  - rewrite IH. by replace (S k + length l1) with (k + S (length l1)) by lia.
Qed.

Lemma entries_loop_accepted jar_tool_ok vt rest : ∀ k st,
  valid vt = false →
  (∀ i, k ≤ i < k + length rest → jarpath_of (results_dir vt) i ∉ directories st) →
  (∀ i conf entry,
     rest !! i = Some (conf, entry) →
     path entry ∈ directories st →
     jar_tool_ok (jarpath_of (results_dir vt) (k + i)) (path entry) = true) →
  ∃ st', for_each (enumerate_from k rest) (consolidate_entry jar_tool_ok vt) st
         = (Done (), st').
Proof.
  induction rest as [|[conf entry] rest IH]; intros k st Hv Hfree Hok; [by eexists|].
  cbn [for_each enumerate_from]. rewrite bind_run.
  destruct (decide (path entry ∈ directories st)) as [Hd|Hd].
  - rewrite consolidate_entry_invalid by done. simpl.
    pose proof (Hok 0 conf entry eq_refl Hd) as Hok0.
    rewrite Nat.add_0_r in Hok0. rewrite Hok0.
    assert (Hsame : directories st ∖ {[ jarpath_of (results_dir vt) k ]} = directories st).
    { apply set_eq. intros p. rewrite elem_of_difference, elem_of_singleton.
      split; [by intros [? _]|]. intros Hp. split; [done|]. intros ->.
      apply (Hfree k); [simpl; lia | done]. }
    rewrite Hsame. apply IH; simpl; [done| |].
    + intros i Hi. apply Hfree. simpl. lia.
    + intros i c e Hi He. pose proof (Hok (S i) c e Hi He) as Hsucc.
      rewrite Nat.add_succ_r in Hsucc. exact Hsucc.
  - rewrite consolidate_entry_skip by done. apply IH; [done| |].
    + intros i Hi. apply Hfree. simpl. lia.
    + intros i c e Hi He. pose proof (Hok (S i) c e Hi He) as Hsucc.
      rewrite Nat.add_succ_r in Hsucc. exact Hsucc.
Qed.

(** X15 (a target at which the run fails).  When the jar tool packages the
    directory entries in front of an entry of an invalid target and refuses
    the directory of that entry, and the archive paths of the entries in
    front are no directories themselves, the run raises at that entry and
    leaves the target half rewritten: the directory entries in front are
    replaced and their archives written, the refused entry and the entries
    behind it are as they were. *)
Theorem failed_target_is_half_rewritten cache_check jar_tool_ok t later st
    before conf entry after :
  (cache_check t).1 = false →
  classpath_products st !!! t = before ++ (conf, entry) :: after →
  path entry ∈ directories st →
  (∀ i, i < length before → jarpath_of (cache_check t).2 i ∉ directories st) →
  (∀ i c e,
     before !! i = Some (c, e) →
     path e ∈ directories st →
     jar_tool_ok (jarpath_of (cache_check t).2 i) (path e) = true) →
  jar_tool_ok (jarpath_of (cache_check t).2 (length before)) (path entry) = false →
  ∃ st',
    _consolidate_classpath cache_check jar_tool_ok (t :: later) st
    = (Raised (JarWriteError (jarpath_of (cache_check t).2 (length before)) (path entry)),
       st')
    ∧ classpath_products st' !!! t
      = filter (λ ce, ¬ is_directory_entry (directories st) ce) before
        ++ (conf, entry) :: after
        ++ archive_entries (directories st) (cache_check t).2 0 before
    ∧ jars st' = jars st ++ archive_writes (directories st) (cache_check t).2 0 before
    ∧ directories st' = directories st.
Proof.
  intros Hv Hcp Hd Hfree Hok Hrefused.
  set (vt := versioned_target cache_check t).
  destruct (entries_loop_accepted jar_tool_ok vt before 0 st Hv) as [st1 Hloop].
  { intros i Hi. apply Hfree. lia. }
  { intros i c e Hi He. by apply (Hok i c e). }
  pose proof Hloop as Hdone.
  apply (entries_loop_done jar_tool_ok vt before 0 [] ((conf, entry) :: after))
    in Hdone as (Hcp1 & _ & Hdirs1 & Hjars1);
    [|done|constructor|intros _ i Hi; apply Hfree; lia].
  simpl in Hcp1, Hjars1. rewrite Hv in Hjars1.
  exists st1. split; [|split; [|split]].
  2: { rewrite Hcp1. reflexivity. }
  2: { exact Hjars1. }
  2: { exact Hdirs1. }
  unfold _consolidate_classpath. cbn [all_vts map for_each]. rewrite bind_run.
  fold vt. unfold consolidate_vt. rewrite bind_run, get_entries_single.
  simpl. rewrite Hcp. unfold enumerate. rewrite enumerate_from_app, for_each_app, Hloop.
  cbn [for_each enumerate_from]. rewrite bind_run.
  rewrite consolidate_entry_invalid by (by rewrite ?Hdirs1).
  simpl. by rewrite Hrefused.
Qed.

Lemma failed_target_is_half_rewritten_witness :
  (ex_check "T").1 = false
  ∧ picky_jar_tool (jarpath_of (ex_check "T").2 1) "/build/T/resources" = false
  ∧ ∃ st',
      _consolidate_classpath ex_check picky_jar_tool ["T"] two_dirs_state
      = (Raised (JarWriteError "/out/T/output-1.jar" "/build/T/resources"), st')
      ∧ classpath_products st' !!! "T"
        = [("test", {| path := "/build/T/resources" |});
           ("default", {| path := "/out/T/output-0.jar" |})]
      ∧ jars st' = [("/out/T/output-0.jar", "/build/T/classes")].
Proof.
  assert (H1 : (ex_check "T").1 = false) by reflexivity.
  assert (H2 : classpath_products two_dirs_state !!! "T"
               = [("default", {| path := "/build/T/classes" |})]
                 ++ ("test", {| path := "/build/T/resources" |}) :: [])
    by (vm_compute; reflexivity).
  assert (H3 : path {| path := "/build/T/resources" |} ∈ directories two_dirs_state)
    by compute_done.
  assert (H4 : ∀ i, i < length [("default", {| path := "/build/T/classes" |})] →
                    jarpath_of (ex_check "T").2 i ∉ directories two_dirs_state).
  { intros i Hi. simpl in Hi. assert (i = 0) as -> by lia. compute_done. }
  assert (H5 : ∀ i c e,
                 [("default", {| path := "/build/T/classes" |})] !! i = Some (c, e) →
                 path e ∈ directories two_dirs_state →
                 picky_jar_tool (jarpath_of (ex_check "T").2 i) (path e) = true).
  { intros [|i] c e Hi He; [|done]. injection Hi as <- <-. vm_compute. reflexivity. }
  assert (H6 : picky_jar_tool
                 (jarpath_of (ex_check "T").2
                    (length [("default", {| path := "/build/T/classes" |})]))
                 (path {| path := "/build/T/resources" |}) = false)
    by (vm_compute; reflexivity).
  split; [exact H1|]. split; [vm_compute; reflexivity|].
  destruct (failed_target_is_half_rewritten ex_check picky_jar_tool "T" []
              two_dirs_state _ _ _ _ H1 H2 H3 H4 H5 H6)
    as (st' & Hrun & Hcp & Hjars & _).
  exists st'. split; [|split].
  - rewrite Hrun. vm_compute. reflexivity.
  - rewrite Hcp. vm_compute. reflexivity.
  - rewrite Hjars. vm_compute. reflexivity.
Defined.

Lemma consolidate_classpath_no_new_candidate cache_check jar_tool_ok st0 targets : ∀ st,
  Forall (has_directory_entry st0) targets →
  no_new_candidate st0 st →
  no_new_candidate st0 (_consolidate_classpath cache_check jar_tool_ok targets st).2.
Proof.
  unfold _consolidate_classpath.
  induction targets as [|t rest IH]; intros st Hcands Hinv; [done|].
  apply Forall_cons in Hcands as [Hd Hcands].
  cbn [all_vts map for_each]. rewrite bind_run.
  pose proof (no_new_candidate_step cache_check jar_tool_ok st0 st t Hinv Hd) as Hinv1.
  destruct (consolidate_vt _ _ st) as [[[]|e] st1]; [|done].
  by apply IH.
Qed.

(** X16 (no new work).  However a run ends, a target that has a directory
    entry afterwards had one before: the run gives no target a directory
    entry, so a later run has no candidate that this one did not have. *)
Theorem no_new_directory_entries cache_check jar_tool_ok targets st t :
  has_directory_entry (consolidate cache_check jar_tool_ok targets st).2 t →
  has_directory_entry st t.
Proof.
  intros Hafter. destruct (decide (has_directory_entry st t)) as [Hd|Hd]; [done|].
  exfalso. revert Hafter. apply (no_new_candidate_skip st); [|done].
  unfold consolidate. rewrite bind_run, find_candidates_run.
  apply consolidate_classpath_no_new_candidate; [|by split].
  apply Forall_forall. intros t' Ht'. by apply list_elem_of_filter in Ht' as [? _].
Qed.

Lemma no_new_directory_entries_witness :
  has_directory_entry
    (consolidate ex_check failing_jar_tool ["A"; "B"; "C"] three_state).2 "C"
  ∧ has_directory_entry three_state "C".
Proof.
  assert (H1 : has_directory_entry
                 (consolidate ex_check failing_jar_tool ["A"; "B"; "C"] three_state).2 "C")
    by compute_done.
  split; [exact H1|].
  exact (no_new_directory_entries ex_check failing_jar_tool _ _ _ H1).
Defined.

(** ** The index of an entry *)

Section Indexes.

Variable cache_check : string → bool * string.
Variable jar_tool_ok : string → string → bool.

(** The entry loop, when it returns: what stood behind the entries it had
    to visit still stands there, and behind it the archive of every visited
    entry that is still a directory, named after the index the loop gave
    the entry. *)
Lemma entries_loop_assigns vt rest : ∀ k head tail st st',
  classpath_products st !!! target vt = head ++ rest ++ tail →
  Forall (λ ce, ¬ is_directory_entry (directories st) ce) head →
  for_each (enumerate_from k rest) (consolidate_entry jar_tool_ok vt) st = (Done (), st') →
  directories st' ⊆ directories st
  ∧ ∃ head' added,
      classpath_products st' !!! target vt = head' ++ tail ++ added
      ∧ ∀ i conf entry,
          rest !! i = Some (conf, entry) →
          path entry ∈ directories st' →
          (conf, {| path := jarpath_of (results_dir vt) (k + i) |}) ∈ added.
Proof.
  induction rest as [|[conf0 entry0] rest IH]; intros k head tail st st' Hcp Hhead Hrun.
  - simpl in Hrun. injection Hrun as <-. split; [done|].
    exists head, []. split; [by rewrite Hcp, app_nil_r|]. intros i conf entry Hi. done.
  - cbn [for_each enumerate_from] in Hrun. rewrite bind_run in Hrun.
    destruct (decide (path entry0 ∈ directories st)) as [Hd|Hd].
    + assert (Hnotin : (conf0, entry0) ∉ head).
      { intros Hin. rewrite Forall_forall in Hhead. by apply (Hhead _ Hin). }
      set (a := (conf0, {| path := jarpath_of (results_dir vt) k |})).
      assert (Hnew :
        replaced (target vt) conf0 entry0 (jarpath_of (results_dir vt) k)
          (classpath_products st) !!! target vt
        = head ++ rest ++ tail ++ [a]).
      { unfold replaced. rewrite lookup_total_insert_eq, Hcp.
        simpl. rewrite remove_first_app_notin by done. by rewrite <- !app_assoc. }
      assert (Hstep : ∃ st1,
        consolidate_entry jar_tool_ok vt (k, (conf0, entry0)) st = (Done (), st1)
        ∧ directories st1 ⊆ directories st
        ∧ classpath_products st1 !!! target vt = head ++ rest ++ tail ++ [a]).
      { destruct (valid vt) eqn:Hv.
        - rewrite consolidate_entry_valid by done. eexists. split; [done|]. by split.
        - rewrite consolidate_entry_invalid in * by done. simpl in *.
          destruct (jar_tool_ok _ _); [|done]. eexists. split; [done|]. simpl.
          split; [|done]. apply subseteq_difference_l. done. }
      destruct Hstep as (st1 & Hstep & Hsub1 & Hcp1). rewrite Hstep in Hrun.
      apply (IH (S k) head (tail ++ [a])) in Hrun as (Hsub & head' & added & Hcp' & Hadded).
      * split; [by etrans|]. exists head', (a :: added).
        split; [by rewrite Hcp', <- app_assoc|].
        intros [|i] conf entry Hi Hp; simpl in Hi.
        -- injection Hi as <- <-. rewrite Nat.add_0_r. by left.
        -- right. rewrite Nat.add_succ_r. by apply (Hadded i conf entry).
      * done.
      * eapply Forall_impl; [exact Hhead|].
        intros ce Hce Hdir. apply Hce. unfold is_directory_entry in *. by apply Hsub1.
    + rewrite consolidate_entry_skip in Hrun by done.
      apply (IH (S k) (head ++ [(conf0, entry0)]) tail)
        in Hrun as (Hsub & head' & added & Hcp' & Hadded).
      * split; [done|]. exists head', added. split; [done|].
        intros [|i] conf entry Hi Hp; simpl in Hi.
        -- injection Hi as <- <-. exfalso. apply Hd. by apply Hsub.
        -- rewrite Nat.add_succ_r. by apply (Hadded i conf entry).
      * rewrite Hcp. by rewrite <- !app_assoc.
      * apply Forall_app. split; [done|]. by apply Forall_singleton.
Qed.

(** One versioned target: the entry at position [i] of its sequence, when
    it is a directory the loop leaves one, has its archive
    [results_dir/output-i.jar] in the sequence afterwards. *)
Lemma consolidate_vt_assigns vt st st' i conf entry :
  consolidate_vt jar_tool_ok vt st = (Done (), st') →
  (classpath_products st !!! target vt) !! i = Some (conf, entry) →
  path entry ∈ directories st' →
  (conf, {| path := jarpath_of (results_dir vt) i |})
    ∈ classpath_products st' !!! target vt.
Proof.
  intros Hrun Hi Hp. unfold consolidate_vt in Hrun.
  rewrite bind_run, get_entries_single in Hrun. unfold enumerate in Hrun.
  apply (entries_loop_assigns vt _ 0 [] []) in Hrun
    as (_ & head' & added & Hcp & Hadded).
  - rewrite Hcp. apply elem_of_app. right. simpl.
    by apply (Hadded i conf entry).
  - simpl. by rewrite app_nil_r.
  - constructor.
Qed.

End Indexes.

(** ** Entries that are no directories, exactly *)

Lemma count_of_remove_first_ne {A} `{EqDecision A} (x y : A) (l : list A) :
  x ≠ y → count_of y (remove_first x l) = count_of y l.
Proof.
  intros Hne. unfold count_of. induction l as [|z l IH]; [done|].
  simpl. destruct (decide (x = z)) as [<-|Hxz].
  - by rewrite filter_cons, decide_False.
  - rewrite !filter_cons. destruct (decide (z = y)); simpl; by rewrite IH.
Qed.

Lemma count_of_snoc_ne {A} `{EqDecision A} (a y : A) (l : list A) :
  a ≠ y → count_of y (l ++ [a]) = count_of y l.
Proof.
  intros Hne. unfold count_of. rewrite filter_app, length_app.
  rewrite filter_cons, decide_False by done. simpl. lia.
Qed.

Lemma for_each_invariant_in {S A} (I : S → Prop) (body : A → task S unit) (l : list A) :
  (∀ x s, x ∈ l → I s → I (body x s).2) → ∀ s, I s → I (for_each l body s).2.
Proof.
  induction l as [|x l IH]; intros Hbody s Hs; [done|].
  cbn [for_each]. rewrite bind_run.
  pose proof (Hbody x s (list_elem_of_here x l) Hs) as Hx.
  destruct (body x s) as [[[]|e] s1]; [|done].
  apply IH; [|done]. intros y s0 Hy. apply Hbody. by right.
Qed.

Lemma enumerate_from_bound {A} (l : list A) : ∀ k i x,
  (i, x) ∈ enumerate_from k l → k ≤ i < k + length l.
Proof.
  induction l as [|y l IH]; intros k i x Hin; simpl in Hin.
  - by apply elem_of_nil in Hin.
  - apply elem_of_cons in Hin as [Heq|Hin].
    + injection Heq as -> _. simpl. lia.
    + apply IH in Hin. simpl. lia.
Qed.

Section Exactly.

Variable cache_check : string → bool * string.
Variable jar_tool_ok : string → string → bool.

Lemma untouched_replaced ce st0 st t conf entry jarpath dirs' jars' :
  untouched ce st0 st →
  path ce.2 ∉ directories st0 →
  path entry ∈ directories st →
  jarpath ≠ path ce.2 →
  dirs' ⊆ directories st →
  (∀ js, js ∈ jars' → js ∈ jars st ∨ js = (jarpath, path entry)) →
  untouched ce st0
    {| classpath_products := replaced t conf entry jarpath (classpath_products st);
       directories := dirs';
       jars := jars' |}.
Proof.
  intros (Hdirs & Hcount & Hjars) Hp Hd Hjar Hsub Hnew.
  assert (Hsrc : path entry ≠ path ce.2).
  { intros Heq. apply Hp. rewrite <- Heq. by apply Hdirs. }
  split; [|split]; simpl.
  - by etrans.
  - intros t'. unfold replaced. destruct (decide (t = t')) as [<-|Hne].
    + rewrite lookup_total_insert_eq, <- Hcount.
      rewrite count_of_snoc_ne; [apply count_of_remove_first_ne|].
      * intros <-. by apply Hsrc.
      * intros <-. by apply Hjar.
    + by rewrite lookup_total_insert_ne.
  - intros js Hjs. destruct (Hnew js Hjs) as [Hold| ->]; [by apply Hjars|].
    right. by split.
Qed.

Lemma consolidate_entry_untouched ce st0 vt index x st :
  path ce.2 ∉ directories st0 →
  jarpath_of (results_dir vt) index ≠ path ce.2 →
  untouched ce st0 st →
  untouched ce st0 (consolidate_entry jar_tool_ok vt (index, x) st).2.
Proof.
  intros Hp Hjar Hinv. destruct x as [conf entry].
  destruct (decide (path entry ∈ directories st)) as [Hd|Hd].
  - destruct (valid vt) eqn:Hv.
    + rewrite consolidate_entry_valid by done. simpl.
      apply untouched_replaced; [done..|]. intros js Hjs. by left.
    + rewrite consolidate_entry_invalid by done. simpl.
      destruct (jar_tool_ok _ _); [|done]. simpl.
      apply untouched_replaced; [done | done | done | done | |].
      * apply subseteq_difference_l. done.
      * intros js Hjs. apply elem_of_app in Hjs as [Hjs|Hjs]; [by left|].
        apply list_elem_of_singleton in Hjs. by right.
  - by rewrite consolidate_entry_skip.
Qed.

Lemma consolidate_vt_untouched ce st0 vt st :
  path ce.2 ∉ directories st0 →
  (∀ i, i < length (classpath_products st !!! target vt) →
        jarpath_of (results_dir vt) i ≠ path ce.2) →
  untouched ce st0 st →
  untouched ce st0 (consolidate_vt jar_tool_ok vt st).2.
Proof.
  intros Hp Hjar Hinv. unfold consolidate_vt.
  rewrite bind_run, get_entries_single.
  apply (for_each_invariant_in (untouched ce st0)); [|done].
  intros [index x] s Hin Hs. apply enumerate_from_bound in Hin.
  apply consolidate_entry_untouched; [done| |done]. apply Hjar. lia.
Qed.

Lemma consolidate_untouched ce targets st :
  path ce.2 ∉ directories st →
  ¬ assigned cache_check st targets (path ce.2) →
  untouched ce st (consolidate cache_check jar_tool_ok targets st).2.
Proof.
  intros Hp Hfresh. unfold consolidate.
  rewrite bind_run, find_candidates_run. unfold _consolidate_classpath.
  assert (Hboth :
    (λ s, untouched ce st s
          ∧ ∀ t, length (classpath_products s !!! t)
                 = length (classpath_products st !!! t))
      (for_each (all_vts cache_check (filter (has_directory_entry st) targets))
         (consolidate_vt jar_tool_ok) st).2).
  { apply for_each_invariant_in.
    - intros vt s Hvt [Hinv Hlen]. unfold all_vts in Hvt.
      apply list_elem_of_fmap in Hvt as (t & -> & Ht).
      apply list_elem_of_filter in Ht as [Hd Ht]. split.
      + apply consolidate_vt_untouched; [done| |done].
        simpl. intros i Hi Heq. apply Hfresh. exists t, i.
        rewrite Hlen in Hi. by rewrite Heq.
      + intros t'. rewrite <- Hlen.
        pose proof (consolidate_vt_confs jar_tool_ok (versioned_target cache_check t) s t')
          as Hperm.
        apply Permutation_length in Hperm. by rewrite !length_fmap in Hperm.
    - split; [|done]. split; [done|]. split; [done|]. intros js Hjs. by left. }
  by destruct Hboth.
Qed.

End Exactly.

(** ** The claims *)

(** C1 (completeness), as the task behaves.  After a run that returned, a
    processed target that had a directory entry has none left, provided
    that none of the archive paths the run can assign is a directory
    itself: every entry of its sequence points at a path that is no
    directory, and each directory entry [(conf, entry)] at index [i] is gone
    while the archive entry [(conf, results_dir/output-i.jar)] is there. *)
Theorem completeness cache_check jar_tool_ok targets st st' t :
  archive_paths_free cache_check st targets →
  consolidate cache_check jar_tool_ok targets st = (Done (), st') →
  t ∈ targets →
  has_directory_entry st t →
  Forall (λ ce, path ce.2 ∉ directories st') (classpath_products st' !!! t)
  ∧ ∀ i conf entry,
      (classpath_products st !!! t) !! i = Some (conf, entry) →
      path entry ∈ directories st →
      ((conf, entry) ∉ classpath_products st' !!! t)
      ∧ ((conf, {| path := jarpath_of (cache_check t).2 i |})
           ∈ classpath_products st' !!! t).
Proof.
  intros Hfree Hrun Ht Hd.
  pose proof (archive_paths_free_candidates cache_check st targets t) as Hjar.
  apply consolidate_done in Hrun as (Hdirs & Hcp & _); [|done].
  assert (Hnone : Forall (λ ce, ¬ is_directory_entry (directories st) ce)
                    (classpath_products st' !!! t)).
  { rewrite (Hcp t Ht). apply consolidated_entries_no_directory.
    intros i Hi. apply Hjar; [done | by apply list_elem_of_filter | done]. }
  split.
  - by rewrite Hdirs.
  - intros i conf entry Hi Hp. split.
    + intros Hin. rewrite Forall_forall in Hnone. by apply (Hnone _ Hin).
    + rewrite (Hcp t Ht). unfold consolidated_entries.
      apply elem_of_app. right.
      by apply (archive_entries_lookup _ _ _ 0 i conf entry).
Qed.

Lemma completeness_witness :
  archive_paths_free ex_check ex_state ["T1"; "T2"]
  ∧ consolidate ex_check ex_jar_tool ["T1"; "T2"] ex_state = (Done (), ex_after)
  ∧ Forall (λ ce, path ce.2 ∉ directories ex_after)
      (classpath_products ex_after !!! "T1").
Proof.
  assert (H1 : archive_paths_free ex_check ex_state ["T1"; "T2"]) by compute_done.
  assert (H2 : consolidate ex_check ex_jar_tool ["T1"; "T2"] ex_state
               = (Done (), ex_after)) by (vm_compute; reflexivity).
  assert (H3 : "T1" ∈ ["T1"; "T2"]) by compute_done.
  assert (H4 : has_directory_entry ex_state "T1") by compute_done.
  split; [exact H1|]. split; [exact H2|].
  exact (proj1 (completeness ex_check ex_jar_tool _ _ _ _ H1 H2 H3 H4)).
Defined.

(** Completeness fails without the condition on the archive paths: [T] is
    valid, so nothing is written, and its directory entry is replaced by
    [/out/T/output-0.jar], which is a directory. *)
Lemma complete_after_run_counterexample :
  ¬ complete_after_run valid_check ex_jar_tool ["T"] stale_state.
Proof.
  intros Hclaim.
  assert (Hrun : consolidate valid_check ex_jar_tool ["T"] stale_state
                 = (Done (), (consolidate valid_check ex_jar_tool ["T"] stale_state).2))
    by (vm_compute; reflexivity).
  assert (Ht : "T" ∈ ["T"]) by compute_done.
  assert (Hd : has_directory_entry stale_state "T") by compute_done.
  destruct (Hclaim _ _ Hrun Ht Hd) as [Hnone _].
  assert (Hcp : classpath_products
                  (consolidate valid_check ex_jar_tool ["T"] stale_state).2 !!! "T"
                = [("default", {| path := "/out/T/output-0.jar" |})])
    by (vm_compute; reflexivity).
  rewrite Hcp in Hnone. apply Forall_inv in Hnone. apply Hnone. compute_done.
Qed.

(** C2 (idempotence).  On the state a returned run leaves behind, the
    candidate search finds nothing, and a second run, whatever the
    validity check and the jar tool then answer, returns the very same
    state: no tuple removed or added, no archive written. *)
Theorem idempotence cache_check jar_tool_ok cache_check' jar_tool_ok' targets st st' :
  archive_paths_free cache_check st targets →
  consolidate cache_check jar_tool_ok targets st = (Done (), st') →
  _find_consolidate_classpath_candidates targets st' = (Done [], st')
  ∧ consolidate cache_check' jar_tool_ok' targets st' = (Done (), st').
Proof.
  intros Hfree Hrun.
  pose proof (no_candidates_left _ _ _ _ _ Hfree Hrun) as Hnil.
  split.
  - by rewrite find_candidates_run, Hnil.
  - by apply consolidate_no_candidates.
Qed.

Lemma idempotence_witness :
  archive_paths_free ex_check ex_state ["T1"; "T2"]
  ∧ consolidate ex_check ex_jar_tool ["T1"; "T2"] ex_state = (Done (), ex_after)
  ∧ consolidate ex_check ex_jar_tool ["T1"; "T2"] ex_after = (Done (), ex_after).
Proof.
  assert (H1 : archive_paths_free ex_check ex_state ["T1"; "T2"]) by compute_done.
  assert (H2 : consolidate ex_check ex_jar_tool ["T1"; "T2"] ex_state
               = (Done (), ex_after)) by (vm_compute; reflexivity).
  split; [exact H1|]. split; [exact H2|].
  exact (proj2 (idempotence ex_check ex_jar_tool ex_check ex_jar_tool _ _ _ H1 H2)).
Defined.

(** C3 (skip on valid).  In any run, the step for a target whose validity
    check says valid returns without writing an archive: the archives
    written and the directories are as before the step.  The sequence of
    the target is rewritten all the same: its directory entries are gone,
    and the archive entry of each stands behind the entries that are no
    directories. *)
Theorem skip_on_valid cache_check jar_tool_ok pre t st st1 :
  (cache_check t).1 = true →
  _consolidate_classpath cache_check jar_tool_ok pre st = (Done (), st1) →
  ∃ st2,
    _consolidate_classpath cache_check jar_tool_ok (pre ++ [t]) st = (Done (), st2)
    ∧ jars st2 = jars st1
    ∧ directories st2 = directories st1
    ∧ classpath_products st2 !!! t
      = filter (λ ce, ¬ is_directory_entry (directories st1) ce)
          (classpath_products st1 !!! t)
        ++ archive_entries (directories st1) (cache_check t).2 0
             (classpath_products st1 !!! t)
    ∧ ∀ i conf entry,
        (classpath_products st1 !!! t) !! i = Some (conf, entry) →
        path entry ∈ directories st1 →
        (conf, {| path := jarpath_of (cache_check t).2 i |})
          ∈ classpath_products st2 !!! t.
Proof.
  intros Hv Hpre. rewrite consolidate_classpath_snoc, Hpre.
  set (vt := versioned_target cache_check t).
  destruct (consolidate_vt_valid jar_tool_ok vt st1 Hv) as [st2 Hrun].
  exists st2. split; [done|].
  apply consolidate_vt_done in Hrun as (Hcp & _ & Hdirs & Hjars);
    [|simpl; intros Hf; by rewrite Hv in Hf].
  simpl in Hcp, Hjars. rewrite Hv, app_nil_r in Hjars.
  split; [done|]. split; [done|]. split; [done|].
  intros i conf entry Hi Hd. rewrite Hcp. unfold consolidated_entries.
  apply elem_of_app. right.
  by apply (archive_entries_lookup _ _ _ 0 i conf entry).
Qed.

Lemma skip_on_valid_witness :
  (valid_check "T").1 = true
  ∧ _consolidate_classpath valid_check ex_jar_tool [] mixed_state = (Done (), mixed_state)
  ∧ ∃ st2,
      _consolidate_classpath valid_check ex_jar_tool ["T"] mixed_state = (Done (), st2)
      ∧ jars st2 = [].
Proof.
  assert (H1 : (valid_check "T").1 = true) by reflexivity.
  assert (H2 : _consolidate_classpath valid_check ex_jar_tool [] mixed_state
               = (Done (), mixed_state)) by reflexivity.
  split; [exact H1|]. split; [exact H2|].
  destruct (skip_on_valid valid_check ex_jar_tool [] "T" _ _ H1 H2)
    as (st2 & Hrun & Hjars & _).
  exists st2. split; [exact Hrun | exact Hjars].
Defined.

(** C4 (index stability).  The archive path of index [i] under a results
    directory is the results directory joined with [output-i.jar], and it
    differs for different indexes.  In any run, whatever the state, the
    validity and the jar tool, the entry that stands at position [i] of the
    sequence of a target when the step for the target begins, and that is
    a directory the step leaves one, has the archive entry of exactly that
    path, under its conf, in the sequence when the step has returned: the
    index in the name is the position of the entry.  And a step of the
    loop that is given the index [i] for a directory entry adds that path
    last. *)
Theorem index_stability rd index :
  jarpath_of rd index = os_path_join rd ("output-" +:+ pretty index +:+ ".jar")
  ∧ (∀ index', jarpath_of rd index = jarpath_of rd index' → index = index')
  ∧ (∀ cache_check jar_tool_ok pre t st st1 st2 conf entry,
       (cache_check t).2 = rd →
       _consolidate_classpath cache_check jar_tool_ok pre st = (Done (), st1) →
       _consolidate_classpath cache_check jar_tool_ok (pre ++ [t]) st = (Done (), st2) →
       (classpath_products st1 !!! t) !! index = Some (conf, entry) →
       path entry ∈ directories st2 →
       (conf, {| path := jarpath_of rd index |}) ∈ classpath_products st2 !!! t)
  ∧ ∀ jar_tool_ok vt conf entry st st',
      results_dir vt = rd →
      path entry ∈ directories st →
      consolidate_entry jar_tool_ok vt (index, (conf, entry)) st = (Done (), st') →
      last (classpath_products st' !!! target vt)
      = Some (conf, {| path := jarpath_of rd index |}).
Proof.
  split; [done|]. split; [intros index'; apply jarpath_of_inj|]. split.
  - intros cache_check jar_tool_ok pre t st st1 st2 conf entry <- Hpre Hrun Hi Hd.
    rewrite consolidate_classpath_snoc, Hpre in Hrun.
    by apply (consolidate_vt_assigns jar_tool_ok
                (versioned_target cache_check t) st1 st2 index conf entry).
  - intros jar_tool_ok vt conf entry st st' <- Hd Hrun.
    destruct (valid vt) eqn:Hv.
    + rewrite consolidate_entry_valid in Hrun by done. injection Hrun as <-.
      simpl. unfold replaced. by rewrite lookup_total_insert_eq, last_snoc.
    + rewrite consolidate_entry_invalid in Hrun by done. simpl in Hrun.
      destruct (jar_tool_ok _ _); [|done]. injection Hrun as <-.
      simpl. unfold replaced. by rewrite lookup_total_insert_eq, last_snoc.
Qed.

Lemma index_stability_witness :
  jarpath_of "/out/T" 1 = "/out/T/output-1.jar"
  ∧ (classpath_products late_state !!! "T") !! 1
    = Some ("default", {| path := "/build/T/classes" |})
  ∧ ("default", {| path := "/out/T/output-1.jar" |})
      ∈ classpath_products
          (_consolidate_classpath ex_check ex_jar_tool ([] ++ ["T"]) late_state).2 !!! "T".
Proof.
  destruct (index_stability "/out/T" 1) as (Hname & _ & Hpos & _).
  assert (Hrd : (ex_check "T").2 = "/out/T") by reflexivity.
  assert (Hpre : _consolidate_classpath ex_check ex_jar_tool [] late_state
                 = (Done (), late_state)) by reflexivity.
  assert (Hrun : _consolidate_classpath ex_check ex_jar_tool ([] ++ ["T"]) late_state
                 = (Done (),
                    (_consolidate_classpath ex_check ex_jar_tool ([] ++ ["T"]) late_state).2))
    by (vm_compute; reflexivity).
  assert (Hi : (classpath_products late_state !!! "T") !! 1
               = Some ("default", {| path := "/build/T/classes" |}))
    by (vm_compute; reflexivity).
  assert (Hd : path {| path := "/build/T/classes" |}
               ∈ directories
                   (_consolidate_classpath ex_check ex_jar_tool ([] ++ ["T"]) late_state).2)
    by compute_done.
  split; [rewrite Hname; vm_compute; reflexivity|]. split; [exact Hi|].
  pose proof (Hpos ex_check ex_jar_tool [] "T" late_state _ _ _ _ Hrd Hpre Hrun Hi Hd)
    as Hin.
  replace "/out/T/output-1.jar" with (jarpath_of "/out/T" 1)
    by (vm_compute; reflexivity).
  exact Hin.
Defined.

(** C5 (order of replacement), as the task behaves.  After a run that
    returned, the sequence of a processed target is its entries that are no
    directories, in their old order, followed by one archive entry per
    directory entry, in the order of the directory entries.  The archive of
    the directory entry at index [i] is still named after [i], but it
    stands behind all entries that are no directories and behind the
    archives of the directory entries before [i], not at position [i]. *)
Theorem archives_appended cache_check jar_tool_ok targets st st' t :
  archive_paths_free cache_check st targets →
  consolidate cache_check jar_tool_ok targets st = (Done (), st') →
  t ∈ targets →
  classpath_products st' !!! t
  = filter (λ ce, ¬ is_directory_entry (directories st) ce) (classpath_products st !!! t)
    ++ archive_entries (directories st) (cache_check t).2 0 (classpath_products st !!! t)
  ∧ ∀ i conf entry,
      (classpath_products st !!! t) !! i = Some (conf, entry) →
      path entry ∈ directories st →
      (classpath_products st' !!! t)
        !! (length (filter (λ ce, ¬ is_directory_entry (directories st) ce)
                      (classpath_products st !!! t))
            + length (filter (is_directory_entry (directories st))
                        (take i (classpath_products st !!! t))))
      = Some (conf, {| path := jarpath_of (cache_check t).2 i |}).
Proof.
  intros Hfree Hrun Ht.
  apply consolidate_done in Hrun as (_ & Hcp & _); [|done].
  rewrite (Hcp t Ht). split; [done|].
  intros i conf entry Hi Hd. unfold consolidated_entries.
  rewrite lookup_app_r by lia.
  replace (_ + _ - _) with
    (length (filter (is_directory_entry (directories st))
               (take i (classpath_products st !!! t)))) by lia.
  by apply (archive_entries_position _ _ _ 0 i conf entry).
Qed.

Lemma archives_appended_witness :
  archive_paths_free ex_check mixed_state ["T"]
  ∧ consolidate ex_check ex_jar_tool ["T"] mixed_state = (Done (), mixed_after)
  ∧ classpath_products mixed_after !!! "T"
    = [("default", {| path := "/lib/a.jar" |});
       ("default", {| path := "/out/T/output-0.jar" |})].
Proof.
  assert (H1 : archive_paths_free ex_check mixed_state ["T"]) by compute_done.
  assert (H2 : consolidate ex_check ex_jar_tool ["T"] mixed_state
               = (Done (), mixed_after)) by (vm_compute; reflexivity).
  assert (H3 : "T" ∈ ["T"]) by compute_done.
  split; [exact H1|]. split; [exact H2|].
  rewrite (proj1 (archives_appended ex_check ex_jar_tool _ _ _ _ H1 H2 H3)).
  vm_compute. reflexivity.
Defined.

(** In-place replacement fails: the directory entry at index 0 of [T] is
    replaced by an archive entry that ends up at index 1, behind
    [/lib/a.jar]. *)
Lemma replaced_in_place_counterexample :
  ¬ replaced_in_place ex_check ex_jar_tool ["T"] mixed_state.
Proof.
  intros Hclaim.
  assert (Hrun : consolidate ex_check ex_jar_tool ["T"] mixed_state
                 = (Done (), mixed_after)) by (vm_compute; reflexivity).
  assert (Ht : "T" ∈ ["T"]) by compute_done.
  assert (Hi : (classpath_products mixed_state !!! "T") !! 0
               = Some ("default", {| path := "/build/T/classes" |}))
    by (vm_compute; reflexivity).
  assert (Hd : "/build/T/classes" ∈ directories mixed_state) by compute_done.
  pose proof (Hclaim _ _ _ _ _ Hrun Ht Hi Hd) as Hpos.
  vm_compute in Hpos. discriminate Hpos.
Qed.

(** C6 (entries that are no directories pass through), as the task
    behaves.  Whatever a run does and however it ends, the entries of every
    sequence that are no directories are all still in the sequence
    afterwards, in their old order; every archive written during the run
    packages a directory, never the path of such an entry; and the step of
    the loop for such an entry returns the state it was given.  When the
    path of such an entry is none of the archive paths the run can assign,
    the entry is in the sequence exactly as often as before, so no tuple
    equal to it is added, and no archive is written to its path either.
    Otherwise a tuple equal to it can be added and its path be the archive
    that is written. *)
Theorem non_directory_passthrough cache_check jar_tool_ok targets st r st' :
  consolidate cache_check jar_tool_ok targets st = (r, st') →
  (∀ t, filter (λ ce, ¬ is_directory_entry (directories st) ce)
          (classpath_products st !!! t)
        `sublist_of` classpath_products st' !!! t)
  ∧ (∀ jarpath source,
       (jarpath, source) ∈ jars st' →
       (jarpath, source) ∈ jars st ∨ source ∈ directories st)
  ∧ (∀ vt index conf entry s,
       path entry ∉ directories s →
       consolidate_entry jar_tool_ok vt (index, (conf, entry)) s = (Done (), s))
  ∧ (∀ t conf entry,
       path entry ∉ directories st →
       ¬ assigned cache_check st targets (path entry) →
       count_of (conf, entry) (classpath_products st' !!! t)
       = count_of (conf, entry) (classpath_products st !!! t)
       ∧ ∀ jarpath source,
           (jarpath, source) ∈ jars st' →
           (jarpath, source) ∈ jars st
           ∨ (jarpath ≠ path entry ∧ source ≠ path entry)).
Proof.
  intros Hrun.
  pose proof (consolidate_passed_through cache_check jar_tool_ok targets st)
    as (_ & Hkeep & Hjars).
  rewrite Hrun in Hkeep, Hjars. simpl in Hkeep, Hjars.
  split; [done|]. split; [|split].
  - intros jarpath source Hin. apply (Hjars _ Hin).
  - intros vt index conf entry s. apply consolidate_entry_skip.
  - intros t conf entry Hp Hfresh.
    pose proof (consolidate_untouched cache_check jar_tool_ok (conf, entry) targets st
                  Hp Hfresh) as (_ & Hcount & Hwritten).
    rewrite Hrun in Hcount, Hwritten. simpl in Hcount, Hwritten.
    split; [apply Hcount|].
    intros jarpath source Hin. apply (Hwritten _ Hin).
Qed.

Lemma non_directory_passthrough_witness :
  consolidate ex_check ex_jar_tool ["T"] mixed_state = (Done (), mixed_after)
  ∧ [("default", {| path := "/lib/a.jar" |})]
      `sublist_of` classpath_products mixed_after !!! "T"
  ∧ count_of ("default", {| path := "/lib/a.jar" |})
      (classpath_products mixed_after !!! "T") = 1.
Proof.
  assert (Hrun : consolidate ex_check ex_jar_tool ["T"] mixed_state
                 = (Done (), mixed_after)) by (vm_compute; reflexivity).
  assert (Hp : path {| path := "/lib/a.jar" |} ∉ directories mixed_state)
    by compute_done.
  assert (Hfresh : ¬ assigned ex_check mixed_state ["T"] (path {| path := "/lib/a.jar" |})).
  { intros (t & i & Ht & _ & Hi & Heq).
    apply list_elem_of_In in Ht. simpl in Ht. destruct Ht as [<-|[]].
    assert (i = 0 ∨ i = 1) as [-> | ->]
      by (assert (length (classpath_products mixed_state !!! "T") = 2)
            by (vm_compute; reflexivity); lia);
      vm_compute in Heq; discriminate Heq. }
  destruct (non_directory_passthrough _ _ _ _ _ _ Hrun) as (Hkeep & _ & _ & Hexact).
  split; [exact Hrun|]. split; [exact (Hkeep "T")|].
  rewrite (proj1 (Hexact "T" "default" {| path := "/lib/a.jar" |} Hp Hfresh)).
  vm_compute. reflexivity.
Defined.

(** Passthrough fails as worded: the directory of [T] is packaged into the
    archive that the second entry of [T] already names, so that archive is
    written, and the sequence names it twice afterwards. *)
Lemma passes_through_untouched_counterexample :
  ¬ passes_through_untouched ex_check ex_jar_tool ["T"] doubled_state.
Proof.
  intros Hclaim.
  assert (Hrun : consolidate ex_check ex_jar_tool ["T"] doubled_state
                 = (Done (), (consolidate ex_check ex_jar_tool ["T"] doubled_state).2))
    by (vm_compute; reflexivity).
  assert (Hin : ("default", {| path := "/out/T/output-0.jar" |})
                ∈ classpath_products doubled_state !!! "T") by compute_done.
  assert (Hp : path {| path := "/out/T/output-0.jar" |} ∉ directories doubled_state)
    by compute_done.
  destruct (Hclaim _ _ _ _ _ Hrun Hin Hp) as [Hcount _].
  vm_compute in Hcount. discriminate Hcount.
Qed.

(** C7 (classifier).  The candidate search returns, leaves the state as it
    found it, and selects a target exactly when the target is in the input
    and some entry of its whole sequence, whatever its conf, points at a
    directory.  A target with an empty sequence is not selected.  The scan
    of a sequence answers at its first directory entry, whatever follows. *)
Theorem classifier_correct targets st :
  ∃ candidates,
    _find_consolidate_classpath_candidates targets st = (Done candidates, st)
    ∧ (∀ t, t ∈ candidates ↔
            t ∈ targets
            ∧ Exists (λ ce, path ce.2 ∈ directories st) (classpath_products st !!! t))
    ∧ (∀ t, classpath_products st !!! t = [] → t ∉ candidates)
    ∧ (∀ before ce after,
         Forall (λ ce', path ce'.2 ∉ directories st) before →
         path ce.2 ∈ directories st →
         scan_entries (before ++ ce :: after) st = scan_entries (before ++ [ce]) st
         ∧ scan_entries (before ++ ce :: after) st = (Done true, st)).
Proof.
  exists (filter (has_directory_entry st) targets).
  split; [apply find_candidates_run|]. split; [|split].
  - intros t. rewrite list_elem_of_filter. unfold has_directory_entry. tauto.
  - intros t Hnil Hin. apply list_elem_of_filter in Hin as [Hd _].
    unfold has_directory_entry in Hd. rewrite Hnil in Hd. by apply Exists_nil in Hd.
  - intros before ce after _ Hd.
    assert (Hscan : ∀ l, scan_entries (before ++ ce :: l) st = (Done true, st)).
    { intros l. rewrite scan_entries_run. do 2 f_equal.
      apply bool_decide_eq_true_2, Exists_app. right. by left. }
    by rewrite !Hscan.
Qed.

Lemma classifier_correct_witness :
  _find_consolidate_classpath_candidates ["T1"; "T2"] ex_state = (Done ["T1"], ex_state).
Proof.
  destruct (classifier_correct ["T1"; "T2"] ex_state) as (candidates & Hrun & _).
  rewrite Hrun. vm_compute in Hrun. injection Hrun as <-. reflexivity.
Defined.



(** C9 (the runtime classpath is left alone), as the task behaves.  When
    the runtime classpath is registered and the consolidated classpath, if
    registered, is another object, [execute], however it ends, leaves the
    runtime classpath registered as the same object with the same sequences.
    When no consolidated classpath is registered, [execute] registers a new
    object for it, and what it holds afterwards is what the consolidation
    makes of the sequences of the runtime classpath. *)
Theorem runtime_classpath_untouched cache_check jar_tool_ok ctx rc manifest r ctx' :
  data_products ctx !! "runtime_classpath" = Some rc →
  objects ctx !! rc = Some manifest →
  (∀ o, data_products ctx !! "consolidated_classpath" = Some o → o ≠ rc) →
  execute cache_check jar_tool_ok ctx = (r, ctx') →
  data_products ctx' !! "runtime_classpath" = Some rc
  ∧ objects ctx' !! rc = Some manifest
  ∧ (data_products ctx !! "consolidated_classpath" = None →
     ∃ o st',
       o ≠ rc
       ∧ objects ctx !! o = None
       ∧ data_products ctx' !! "consolidated_classpath" = Some o
       ∧ consolidate cache_check jar_tool_ok (context_targets ctx)
           {| classpath_products := manifest;
              directories := fs_directories ctx;
              jars := fs_jars ctx |} = (r, st')
       ∧ objects ctx' !! o = Some (classpath_products st')).
Proof.
  intros Hrc Hobj Hsep Hrun.
  unfold execute in Hrun. rewrite bind_run in Hrun.
  unfold get_data at 1 in Hrun. rewrite Hrc in Hrun.
  rewrite bind_run in Hrun. unfold get_data in Hrun.
  destruct (data_products ctx !! "consolidated_classpath") as [o|] eqn:Hcc.
  - rewrite bind_run in Hrun. unfold targets_of_context, on_object in Hrun.
    destruct (consolidate _ _ _ _) as [r0 st0]. injection Hrun as <- <-. simpl.
    split; [done|]. split; [|done].
    rewrite lookup_insert_ne; [done | by apply Hsep].
  - unfold classpath_copy in Hrun. rewrite bind_run in Hrun.
    unfold targets_of_context, on_object in Hrun. simpl in Hrun.
    set (o := fresh (dom (objects ctx))) in *.
    assert (Hfresh : objects ctx !! o = None).
    { apply not_elem_of_dom. apply is_fresh. }
    assert (Hne : o ≠ rc) by (intros ->; by rewrite Hobj in Hfresh).
    rewrite lookup_total_insert_eq in Hrun.
    rewrite (lookup_total_correct _ _ _ Hobj) in Hrun.
    destruct (consolidate _ _ _ _) as [r0 st0] eqn:Hcons.
    injection Hrun as <- <-. simpl.
    split; [by rewrite lookup_insert_ne|]. split.
    + by rewrite !lookup_insert_ne.
    + intros _. exists o, st0. rewrite !lookup_insert_eq. done.
Qed.

Lemma runtime_classpath_untouched_witness :
  data_products ex_context !! "runtime_classpath" = Some 0
  ∧ objects ex_context !! 0 = Some (classpath_products ex_state)
  ∧ execute ex_check ex_jar_tool ex_context = (Done (), ex_context_after)
  ∧ objects ex_context_after !! 0 = Some (classpath_products ex_state).
Proof.
  assert (H1 : data_products ex_context !! "runtime_classpath" = Some 0)
    by (vm_compute; reflexivity).
  assert (H2 : objects ex_context !! 0 = Some (classpath_products ex_state))
    by (vm_compute; reflexivity).
  assert (H3 : ∀ o, data_products ex_context !! "consolidated_classpath" = Some o → o ≠ 0).
  { intros o Ho. vm_compute in Ho. discriminate Ho. }
  assert (H4 : execute ex_check ex_jar_tool ex_context = (Done (), ex_context_after))
    by (vm_compute; reflexivity).
  split; [exact H1|]. split; [exact H2|]. split; [exact H4|].
  exact (proj1 (proj2 (runtime_classpath_untouched _ _ _ _ _ _ _ H1 H2 H3 H4))).
Defined.


(** The runtime classpath is not kept when both product names are
    registered for one object: [execute] consolidates that object, and the
    sequence of [T1] in the runtime classpath is rewritten. *)
Lemma runtime_classpath_kept_counterexample :
  ¬ runtime_classpath_kept ex_check ex_jar_tool aliased_context.
Proof.
  intros Hclaim.
  assert (Hrc : data_products aliased_context !! "runtime_classpath" = Some 0)
    by (vm_compute; reflexivity).
  assert (Hobj : objects aliased_context !! 0 = Some (classpath_products ex_state))
    by (vm_compute; reflexivity).
  assert (Hrun : execute ex_check ex_jar_tool aliased_context
                 = (Done (), (execute ex_check ex_jar_tool aliased_context).2))
    by (vm_compute; reflexivity).
  destruct (Hclaim _ _ _ _ Hrc Hobj Hrun) as [_ Hkept].
  apply (f_equal (λ o, default ∅ o !!! "T1")) in Hkept.
  vm_compute in Hkept. discriminate Hkept.
Qed.

(** C10 (candidate list), as the task behaves.  The candidate list is the
    input list restricted to the targets with a directory entry: it keeps
    the order of the input, and a selected target occurs in it as often as
    in the input, hence once when the input names no target twice. *)
Theorem candidates_once_per_occurrence targets st :
  ∃ candidates,
    _find_consolidate_classpath_candidates targets st = (Done candidates, st)
    ∧ candidates = filter (has_directory_entry st) targets
    ∧ candidates `sublist_of` targets
    ∧ (∀ t, t ∈ candidates → occurrences t candidates = occurrences t targets)
    ∧ (NoDup targets → ∀ t, t ∈ candidates → occurrences t candidates = 1).
Proof.
  exists (filter (has_directory_entry st) targets).
  split; [apply find_candidates_run|]. split; [done|].
  split; [apply sublist_filter|].
  assert (Hocc : ∀ t, t ∈ filter (has_directory_entry st) targets →
                      occurrences t (filter (has_directory_entry st) targets)
                      = occurrences t targets).
  { intros t Hin. apply list_elem_of_filter in Hin as [Hd _].
    by apply occurrences_filter. }
  split; [done|].
  intros Hnd t Hin. rewrite (Hocc t Hin).
  apply list_elem_of_filter in Hin as [_ Hin]. by apply occurrences_NoDup.
Qed.

Lemma candidates_once_per_occurrence_witness :
  NoDup ["T1"; "T2"]
  ∧ ∃ candidates,
      _find_consolidate_classpath_candidates ["T1"; "T2"] ex_state
      = (Done candidates, ex_state)
      ∧ occurrences "T1" candidates = 1.
Proof.
  assert (Hnd : NoDup ["T1"; "T2"]) by compute_done.
  split; [exact Hnd|].
  destruct (candidates_once_per_occurrence ["T1"; "T2"] ex_state)
    as (candidates & Hrun & Hfilter & _ & _ & Honce).
  exists candidates. split; [exact Hrun|].
  apply (Honce Hnd). rewrite Hfilter. compute_done.
Defined.

(** A target named twice in the input, with a directory entry, is
    appended twice. *)
Lemma selected_once_counterexample : ¬ selected_once ["T1"; "T1"] ex_state.
Proof.
  intros (candidates & Hrun & Honce & _).
  assert (Hc : _find_consolidate_classpath_candidates ["T1"; "T1"] ex_state
               = (Done ["T1"; "T1"], ex_state)) by (vm_compute; reflexivity).
  rewrite Hc in Hrun. injection Hrun as <-.
  assert (Hin : "T1" ∈ ["T1"; "T1"]) by compute_done.
  specialize (Honce "T1" Hin). vm_compute in Honce. discriminate Honce.
Qed.
